(** * Streaming chat session core of react-chatbot-openai

    A shallow embedding of [src/hooks/useChatbot.tsx] (the session core and
    the persistence store) and of [src/provider/openaiProvider.tsx] (the
    completion client), followed by the properties of the specification
    that were checked against them.

    Conventions.
    - A JavaScript string is a Rocq [string]: the UTF-8 bytes of the text.
    - Mutable closure variables, React state and [localStorage] are fields
      of one record [App]; the code runs in a state-and-exception monad [M]
      over it.
    - Everything the code awaits (the completion request, the chunks of the
      stream, the clock) and the user's presses on Cancel while a request is
      in flight are inputs, collected in a [Run]. *)

From Stdlib Require Import ZArith String Ascii DecimalString.
From Stdlib Require DecimalFacts DecimalPos.
From stdpp Require Import base list strings gmap.

Set Warnings "-register-all".

Local Open Scope string_scope.
Local Open Scope list_scope.
Local Open Scope Z_scope.

(** ** JavaScript strings and thrown values *)

Module JS.

(** A string is truthy unless it is empty. *)
Definition truthy (s : string) : bool :=
  match s with
  | EmptyString => false
  | String _ _ => true
  end.

(** [a || b] on strings. *)
Definition or_else (a b : string) : string := if truthy a then a else b.

(** [s.includes(needle)]. *)
Fixpoint includes (s needle : string) : bool :=
  String.prefix needle s
  || match s with
     | EmptyString => false
     | String _ rest => includes rest needle
     end.

(** [s.toLowerCase()], on the letters A to Z; bytes of other characters
    are left as they are. *)
Definition lower (c : ascii) : ascii :=
  let n := nat_of_ascii c in
  if ((65 <=? n)%nat && (n <=? 90)%nat)%bool then ascii_of_nat (n + 32) else c.

Fixpoint toLowerCase (s : string) : string :=
  match s with
  | EmptyString => EmptyString
  | String c rest => String (lower c) (toLowerCase rest)
  end.

(** White space and line terminators of ECMAScript, as UTF-8: the one-byte
    ones (TAB, LF, VT, FF, CR, SP), U+00A0, and the three-byte ones
    (U+1680, U+2000 to U+200A, U+2028, U+2029, U+202F, U+205F, U+3000,
    U+FEFF). *)
Definition ws1 (a : ascii) : bool :=
  let n := nat_of_ascii a in
  ((9 <=? n)%nat && (n <=? 13)%nat || (n =? 32)%nat)%bool.

Definition ws2 (a b : ascii) : bool :=
  ((nat_of_ascii a =? 194)%nat && (nat_of_ascii b =? 160)%nat)%bool.

Definition ws3 (a b c : ascii) : bool :=
  let x := nat_of_ascii a in
  let y := nat_of_ascii b in
  let z := nat_of_ascii c in
  ((x =? 225) && (y =? 154) && (z =? 128)
   || (x =? 226) && (y =? 128)
      && ((128 <=? z) && (z <=? 138) || (z =? 168) || (z =? 169) || (z =? 175))
   || (x =? 226) && (y =? 129) && (z =? 159)
   || (x =? 227) && (y =? 128) && (z =? 128)
   || (x =? 239) && (y =? 187) && (z =? 191))%nat%bool.

(** Drops the white space at the front. With [back] the string is read
    from its last byte, so the bytes of a character come in reverse. *)
Fixpoint strip (back : bool) (s : string) : string :=
  match s with
  | EmptyString => EmptyString
  | String a r1 =>
      if ws1 a then strip back r1
      else
        match r1 with
        | EmptyString => s
        | String b r2 =>
            if (if back then ws2 b a else ws2 a b) then strip back r2
            else
              match r2 with
              | EmptyString => s
              | String c r3 =>
                  if (if back then ws3 c b a else ws3 a b c)
                  then strip back r3
                  else s
              end
        end
  end.

Definition trimStart (s : string) : string := strip false s.
Definition trimEnd (s : string) : string :=
  String.rev (strip true (String.rev s)).

(** [s.trim()]. *)
Definition trim (s : string) : string := trimEnd (trimStart s).

(** What a [throw] can carry: an [Error] object with its [name] and
    [message], or any other value (an abort reason given as a string, for
    one). *)
Inductive Thrown : Type :=
| ErrorObj (name message : string)
| NonError (shown : string).

(** [new Error(message)]. *)
Definition Error (message : string) : Thrown := ErrorObj "Error" message.

End JS.

#[global] Instance Thrown_eq_dec : EqDecision JS.Thrown.
Proof. solve_decision. Defined.

(** ** JSON, as [JSON.parse] and [JSON.stringify] read and write it

    These two are the platform's, not the repository's. Numbers are kept
    exact: a literal without fraction or exponent is an integer, any other
    literal is kept as written. *)

Module JSON.

Inductive Number : Type :=
| Int (z : Z)
| Lit (lexeme : string).

Inductive Value : Type :=
| Null
| Bool (b : bool)
| Num (n : Number)
| Str (s : string)
| Arr (items : list Value)
| Obj (members : list (string * Value)).

Definition dquote : ascii := "034"%char.
Definition backslash : ascii := "\"%char.

(** *** Writing *)

Definition string_of_Z (z : Z) : string := NilZero.string_of_int (Z.to_int z).

Definition hex_digit (n : nat) : ascii :=
  if (n <? 10)%nat then ascii_of_nat (48 + n) else ascii_of_nat (87 + n).

(** Quotes, backslashes and control characters are escaped. *)
Definition escape (c : ascii) : string :=
  let n := nat_of_ascii c in
  if (n =? 34)%nat then String backslash (String dquote "")
  else if (n =? 92)%nat then String backslash (String backslash "")
  else if (n =? 8)%nat then String backslash "b"
  else if (n =? 12)%nat then String backslash "f"
  else if (n =? 10)%nat then String backslash "n"
  else if (n =? 13)%nat then String backslash "r"
  else if (n =? 9)%nat then String backslash "t"
  else if (n <? 32)%nat then
    String backslash
      ("u00" +:+ String (hex_digit (n / 16)) (String (hex_digit (n mod 16)) ""))
  else String c "".

Fixpoint escape_all (s : string) : string :=
  match s with
  | EmptyString => EmptyString
  | String c rest => escape c +:+ escape_all rest
  end.

Definition quote (s : string) : string :=
  String dquote (escape_all s +:+ String dquote "").

(** The texts of the items, with commas between them. *)
Definition join {A : Type} (text : A → string) : list A → string :=
  fix go (l : list A) : string :=
    match l with
    | [] => ""
    | [x] => text x
    | x :: rest => text x +:+ "," +:+ go rest
    end.

Fixpoint stringify (v : Value) : string :=
  match v with
  | Null => "null"
  | Bool true => "true"
  | Bool false => "false"
  | Num (Int z) => string_of_Z z
  | Num (Lit l) => l
  | Str s => quote s
  | Arr items => "[" +:+ join stringify items +:+ "]"
  | Obj members =>
      "{" +:+ join (λ kx, quote kx.1 +:+ ":" +:+ stringify kx.2) members +:+ "}"
  end.

(** *** Reading *)

Definition is_ws (c : ascii) : bool :=
  let n := nat_of_ascii c in
  ((n =? 32) || (n =? 9) || (n =? 10) || (n =? 13))%nat%bool.

Fixpoint skip_ws (s : string) : string :=
  match s with
  | String c rest => if is_ws c then skip_ws rest else s
  | EmptyString => s
  end.

(** [expect w s] is what follows [w] at the front of [s]. *)
Fixpoint expect (w s : string) : option string :=
  match w, s with
  | EmptyString, _ => Some s
  | String a w', String b s' => if Ascii.eqb a b then expect w' s' else None
  | String _ _, EmptyString => None
  end.

Definition is_digit (c : ascii) : bool :=
  let n := nat_of_ascii c in ((48 <=? n) && (n <=? 57))%nat%bool.

(** The digits at the front of [s], and the rest. *)
Fixpoint digits (s : string) : string * string :=
  match s with
  | String c rest =>
      if is_digit c then let '(d, r) := digits rest in (String c d, r)
      else (EmptyString, s)
  | EmptyString => (EmptyString, EmptyString)
  end.

(** The number a string of digits denotes. *)
Definition Z_of_digits (d : string) : Z :=
  match NilEmpty.uint_of_string d with
  | Some u => Z.of_uint u
  | None => 0
  end.

(** number = [-] int [frac] [exp], where int has no leading zero. *)
Definition parse_number (s : string) : option (Value * string) :=
  let '(neg, s1) :=
    match s with
    | String "-" r => (true, r)
    | _ => (false, s)
    end in
  let '(ip, s2) := digits s1 in
  match ip with
  | EmptyString => None
  | String d more =>
      if (Ascii.eqb d "0" && JS.truthy more)%bool then None
      else
        let frac :=
          match s2 with
          | String "." r =>
              let '(fd, r') := digits r in
              if JS.truthy fd then Some ("." +:+ fd, r') else None
          | _ => Some ("", s2)
          end in
        match frac with
        | None => None
        | Some (fl, s3) =>
            let exp :=
              match s3 with
              | String e r =>
                  if (Ascii.eqb e "e" || Ascii.eqb e "E")%bool then
                    let '(sg, r1) :=
                      match r with
                      | String "+" r0 => ("+", r0)
                      | String "-" r0 => ("-", r0)
                      | _ => ("", r)
                      end in
                    let '(ed, r2) := digits r1 in
                    if JS.truthy ed then Some (String e (sg +:+ ed), r2) else None
                  else Some ("", s3)
              | EmptyString => Some ("", s3)
              end in
            match exp with
            | None => None
            | Some (el, s4) =>
                if (JS.truthy fl || JS.truthy el)%bool
                then Some (Num (Lit ((if neg then "-" else "") +:+ ip +:+ fl +:+ el)), s4)
                else Some (Num (Int (if neg then - Z_of_digits ip else Z_of_digits ip)), s4)
            end
        end
  end.

Definition hex_value (c : ascii) : option N :=
  let n := N_of_ascii c in
  if ((48 <=? n) && (n <=? 57))%N%bool then Some (n - 48)%N
  else if ((97 <=? n) && (n <=? 102))%N%bool then Some (n - 87)%N
  else if ((65 <=? n) && (n <=? 70))%N%bool then Some (n - 55)%N
  else None.

Definition hex4 (a b c d : ascii) : option N :=
  match hex_value a, hex_value b, hex_value c, hex_value d with
  | Some x, Some y, Some z, Some w => Some (((x * 16 + y) * 16 + z) * 16 + w)%N
  | _, _, _, _ => None
  end.

(** The UTF-8 bytes of a code point (a lone surrogate is written like any
    other three-byte code point). *)
Definition utf8 (n : N) : string :=
  let byte (k : N) := ascii_of_N k in
  let cont (k : N) := byte (128 + N.land k 63)%N in
  if (n <? 128)%N then String (byte n) ""
  else if (n <? 2048)%N then
    String (byte (192 + N.shiftr n 6)%N) (String (cont n) "")
  else if (n <? 65536)%N then
    String (byte (224 + N.shiftr n 12)%N)
      (String (cont (N.shiftr n 6)) (String (cont n) ""))
  else
    String (byte (240 + N.shiftr n 18)%N)
      (String (cont (N.shiftr n 12))
         (String (cont (N.shiftr n 6)) (String (cont n) ""))).

(** The characters of a string literal, after its opening quote. *)
Fixpoint parse_chars (s : string) : option (string * string) :=
  let continue (piece : string) (r : string) (k : option (string * string)) :=
    match k with
    | Some (t, r') => Some (piece +:+ t, r')
    | None => None
    end in
  match s with
  | EmptyString => None
  | String "034" r => Some (EmptyString, r)
  | String "\" (String e r) =>
      match e with
      | "034"%char => continue (String dquote "") r (parse_chars r)
      | "\"%char => continue (String backslash "") r (parse_chars r)
      | "/"%char => continue "/" r (parse_chars r)
      | "b"%char => continue (String (ascii_of_nat 8) "") r (parse_chars r)
      | "f"%char => continue (String (ascii_of_nat 12) "") r (parse_chars r)
      | "n"%char => continue (String (ascii_of_nat 10) "") r (parse_chars r)
      | "r"%char => continue (String (ascii_of_nat 13) "") r (parse_chars r)
      | "t"%char => continue (String (ascii_of_nat 9) "") r (parse_chars r)
      | "u"%char =>
          match r with
          | String h1 (String h2 (String h3 (String h4 r1))) =>
              match hex4 h1 h2 h3 h4 with
              | None => None
              | Some hi =>
                  let single := continue (utf8 hi) r1 (parse_chars r1) in
                  if ((55296 <=? hi) && (hi <=? 56319))%N%bool then
                    match r1 with
                    | String "\" (String "u"
                        (String l1 (String l2 (String l3 (String l4 r2))))) =>
                        match hex4 l1 l2 l3 l4 with
                        | Some lo =>
                            if ((56320 <=? lo) && (lo <=? 57343))%N%bool then
                              continue
                                (utf8 (65536 + (hi - 55296) * 1024 + (lo - 56320))%N)
                                r2 (parse_chars r2)
                            else single
                        | None => single
                        end
                    | _ => single
                    end
                  else single
              end
          | _ => None
          end
      | _ => None
      end
  | String "\" EmptyString => None
  | String c r =>
      if (nat_of_ascii c <? 32)%nat then None
      else continue (String c "") r (parse_chars r)
  end.

Fixpoint parse_value (fuel : nat) (s : string) : option (Value * string) :=
  match fuel with
  | O => None
  | S fuel' =>
      match skip_ws s with
      | String "n" r => r' ← expect "ull" r; Some (Null, r')
      | String "t" r => r' ← expect "rue" r; Some (Bool true, r')
      | String "f" r => r' ← expect "alse" r; Some (Bool false, r')
      | String "034" r => '(t, r') ← parse_chars r; Some (Str t, r')
      | String "[" r =>
          match skip_ws r with
          | String "]" r' => Some (Arr [], r')
          | r1 => parse_elements fuel' r1 []
          end
      | String "{" r =>
          match skip_ws r with
          | String "}" r' => Some (Obj [], r')
          | r1 => parse_members fuel' r1 []
          end
      | other => parse_number other
      end
  end
with parse_elements (fuel : nat) (s : string) (acc : list Value)
    : option (Value * string) :=
  match fuel with
  | O => None
  | S fuel' =>
      match parse_value fuel' s with
      | None => None
      | Some (v, r) =>
          match skip_ws r with
          | String "," r' => parse_elements fuel' r' (acc ++ [v])
          | String "]" r' => Some (Arr (acc ++ [v]), r')
          | _ => None
          end
      end
  end
with parse_members (fuel : nat) (s : string) (acc : list (string * Value))
    : option (Value * string) :=
  match fuel with
  | O => None
  | S fuel' =>
      match skip_ws s with
      | String "034" r =>
          match parse_chars r with
          | None => None
          | Some (k, r0) =>
              match skip_ws r0 with
              | String ":" r1 =>
                  match parse_value fuel' r1 with
                  | None => None
                  | Some (v, r2) =>
                      match skip_ws r2 with
                      | String "," r' => parse_members fuel' r' (acc ++ [(k, v)])
                      | String "}" r' => Some (Obj (acc ++ [(k, v)]), r')
                      | _ => None
                      end
                  end
              | _ => None
              end
          end
      | _ => None
      end
  end.

(** [JSON.parse(text)]; [None] is the SyntaxError it throws. Every step of
    the parser takes at least one character, so the length of the text is
    fuel enough. *)
Definition parse (text : string) : option Value :=
  match parse_value (S (String.length text)) text with
  | Some (v, rest) => if JS.truthy (skip_ws rest) then None else Some v
  | None => None
  end.

(** [o[key]] on a parsed object: of two members with one key the later
    one wins. *)
Fixpoint member (key : string) (members : list (string * Value)) : option Value :=
  match members with
  | [] => None
  | (k, v) :: rest =>
      match member key rest with
      | Some v' => Some v'
      | None => if String.eqb k key then Some v else None
      end
  end.

End JSON.

(** ** Data model *)

(** The role tags of a transcript message. *)
Module Role.
Inductive t : Type := user | assistant | system | error.

Definition name (r : t) : string :=
  match r with
  | user => "user"
  | assistant => "assistant"
  | system => "system"
  | error => "error"
  end.
End Role.

#[global] Instance Role_eq_dec : EqDecision Role.t.
Proof. solve_decision. Defined.

(** [type Message] of the hook; [error] is its optional flag. *)
Module Message.
Record t : Type := make {
  role : Role.t;
  content : string;
  timestamp : Z;
  error : option bool
}.

(** [last.content += chunk]. *)
Definition extend (m : t) (chunk : string) : t :=
  {| role := role m; content := content m +:+ chunk;
     timestamp := timestamp m; error := error m |}.

(** The object [JSON.stringify] sees: the keys in the order in which the
    object literals of the hook write them. *)
Definition encode (m : t) : JSON.Value :=
  JSON.Obj
    ([("role", JSON.Str (Role.name (role m)));
      ("content", JSON.Str (content m));
      ("timestamp", JSON.Num (JSON.Int (timestamp m)))]
     ++ match error m with
        | Some b => [("error", JSON.Bool b)]
        | None => []
        end).

Definition role_of_name (s : string) : option Role.t :=
  if String.eqb s "user" then Some Role.user
  else if String.eqb s "assistant" then Some Role.assistant
  else if String.eqb s "system" then Some Role.system
  else if String.eqb s "error" then Some Role.error
  else None.

(** A parsed value read as a [Message]; [None] when it has not that
    shape. *)
Definition decode (v : JSON.Value) : option t :=
  match v with
  | JSON.Obj members =>
      match JSON.member "role" members, JSON.member "content" members,
            JSON.member "timestamp" members with
      | Some (JSON.Str r), Some (JSON.Str c), Some (JSON.Num (JSON.Int ts)) =>
          match role_of_name r, JSON.member "error" members with
          | Some r', None => Some (make r' c ts None)
          | Some r', Some (JSON.Bool b) => Some (make r' c ts (Some b))
          | _, _ => None
          end
      | _, _, _ => None
      end
  | _ => None
  end.

Fixpoint decode_all (items : list JSON.Value) : option (list t) :=
  match items with
  | [] => Some []
  | v :: rest =>
      match decode v, decode_all rest with
      | Some m, Some ms => Some (m :: ms)
      | _, _ => None
      end
  end.
End Message.

#[global] Instance Message_eq_dec : EqDecision Message.t.
Proof. solve_decision. Defined.

(** [type OpenAIMessage] of the provider: its roles leave out [error]. *)
Module OpenAIRole.
Inductive t : Type := system | user | assistant.

Definition name (r : t) : string :=
  match r with
  | system => "system"
  | user => "user"
  | assistant => "assistant"
  end.
End OpenAIRole.

Module OpenAIMessage.
Record t : Type := make {
  role : OpenAIRole.t;
  content : string
}.
End OpenAIMessage.

#[global] Instance OpenAIRole_eq_dec : EqDecision OpenAIRole.t.
Proof. solve_decision. Defined.

#[global] Instance OpenAIMessage_eq_dec : EqDecision OpenAIMessage.t.
Proof. solve_decision. Defined.

(** ** What the code awaits *)

(** One chunk of the completion stream: [choices[0]?.delta?.content] and
    [choices[0]?.finish_reason], either of which may be missing. *)
Record Chunk : Type := {
  delta_content : option string;
  finish_reason : option string
}.

(** What happens, in order, while the stream is read: the source yields a
    chunk, or the user presses Cancel. *)
Inductive Event : Type :=
| Delta (chunk : Chunk)
| UserAbort.

(** How the source ends once its chunks are through: it is exhausted, or
    its iterator throws. *)
Inductive Ending : Type :=
| Exhausted
| Broken (e : JS.Thrown).

(** How [openai.chat.completions.create] settles. *)
Inductive Outcome : Type :=
| Rejected (e : JS.Thrown)
| Resolved (events : list Event) (ending : Ending).

#[global] Instance Chunk_eq_dec : EqDecision Chunk.
Proof. solve_decision. Defined.

#[global] Instance Event_eq_dec : EqDecision Event.
Proof. solve_decision. Defined.

#[global] Instance Ending_eq_dec : EqDecision Ending.
Proof. solve_decision. Defined.

(** One call of [sendMessage] as the world plays it: the readings of
    [Date.now()], whether the user presses Cancel while the request is
    pending, and how the request settles. *)
Record Run : Type := {
  clock : nat → Z;
  cancel_while_pending : bool;
  request : Outcome
}.

(** ** State, effects and the monad *)

(** The effects a property may ask about, in the order they happen. *)
Inductive Effect : Type :=
| SetMessages (transcript : list Message.t)
| SetLoading (b : bool)
| Request (payload : list OpenAIMessage.t) (signal : option nat)
| SaveLater.

Record App : Type := {
  (** [useState] of the hook *)
  messages : list Message.t;
  loading : bool;
  (** [abortController.current]: the controller in use, by number *)
  abortController : nat;
  (** the controllers made so far, and those whose signal is aborted *)
  controllers : nat;
  aborted : gset nat;
  (** the provider's closure variable [messages] *)
  history : list OpenAIMessage.t;
  localStorage : gmap string string;
  (** how many times [Date.now()] was read *)
  ticks : nat;
  trace : list Effect;
  (** a state updater threw, or the state was given a value that is no
      list of messages: the component cannot render any more *)
  crashed : bool
}.

Definition with_messages (l : list Message.t) (w : App) : App :=
  {| messages := l; loading := loading w; abortController := abortController w;
     controllers := controllers w; aborted := aborted w; history := history w;
     localStorage := localStorage w; ticks := ticks w; trace := trace w;
     crashed := crashed w |}.

Definition with_loading (b : bool) (w : App) : App :=
  {| messages := messages w; loading := b; abortController := abortController w;
     controllers := controllers w; aborted := aborted w; history := history w;
     localStorage := localStorage w; ticks := ticks w; trace := trace w;
     crashed := crashed w |}.

Definition with_controller (current made : nat) (gone : gset nat) (w : App) : App :=
  {| messages := messages w; loading := loading w; abortController := current;
     controllers := made; aborted := gone; history := history w;
     localStorage := localStorage w; ticks := ticks w; trace := trace w;
     crashed := crashed w |}.

Definition with_history (h : list OpenAIMessage.t) (w : App) : App :=
  {| messages := messages w; loading := loading w; abortController := abortController w;
     controllers := controllers w; aborted := aborted w; history := h;
     localStorage := localStorage w; ticks := ticks w; trace := trace w;
     crashed := crashed w |}.

Definition with_localStorage (s : gmap string string) (w : App) : App :=
  {| messages := messages w; loading := loading w; abortController := abortController w;
     controllers := controllers w; aborted := aborted w; history := history w;
     localStorage := s; ticks := ticks w; trace := trace w;
     crashed := crashed w |}.

Definition with_ticks (n : nat) (w : App) : App :=
  {| messages := messages w; loading := loading w; abortController := abortController w;
     controllers := controllers w; aborted := aborted w; history := history w;
     localStorage := localStorage w; ticks := n; trace := trace w;
     crashed := crashed w |}.

Definition with_trace (t : list Effect) (w : App) : App :=
  {| messages := messages w; loading := loading w; abortController := abortController w;
     controllers := controllers w; aborted := aborted w; history := history w;
     localStorage := localStorage w; ticks := ticks w; trace := t;
     crashed := crashed w |}.

Definition with_crashed (w : App) : App :=
  {| messages := messages w; loading := loading w; abortController := abortController w;
     controllers := controllers w; aborted := aborted w; history := history w;
     localStorage := localStorage w; ticks := ticks w; trace := trace w;
     crashed := true |}.

(** A computation returns a value or throws. *)
Inductive Result (A : Type) : Type :=
| Ok (a : A)
| Throw (e : JS.Thrown).
Arguments Ok {A} a.
Arguments Throw {A} e.

Definition M (A : Type) : Type := App → Result A * App.

Definition ret {A : Type} (a : A) : M A := λ w, (Ok a, w).

Definition bind {A B : Type} (m : M A) (f : A → M B) : M B :=
  λ w, match m w with
       | (Ok a, w') => f a w'
       | (Throw e, w') => (Throw e, w')
       end.

Declare Scope M_scope.
Delimit Scope M_scope with M.
Bind Scope M_scope with M.
Notation "x ← y ; z" := (bind y (λ x, z))
  (at level 20, y at level 100, z at level 200, only parsing) : M_scope.
Notation "x ;; z" := (bind x (λ _, z))
  (at level 100, z at level 200, only parsing, right associativity) : M_scope.
Local Open Scope M_scope.

Definition throw {A : Type} (e : JS.Thrown) : M A := λ w, (Throw e, w).

(** [try { body } catch (e) { handler e }]. *)
Definition try_catch {A : Type} (body : M A) (handler : JS.Thrown → M A) : M A :=
  λ w, match body w with
       | (Ok a, w') => (Ok a, w')
       | (Throw e, w') => handler e w'
       end.

(** [try { body } finally { last }]. *)
Definition finally {A : Type} (body : M A) (last : M unit) : M A :=
  λ w, match body w with
       | (r, w') =>
           match last w' with
           | (Ok _, w'') => (r, w'')
           | (Throw e, w'') => (Throw e, w'')
           end
       end.

Definition get {A : Type} (field : App → A) : M A := λ w, (Ok (field w), w).
Definition modify (f : App → App) : M unit := λ w, (Ok (), f w).
Definition emit (e : Effect) : M unit := modify (λ w, with_trace (trace w ++ [e]) w).

(** The state a computation leaves, and what it returns. *)
Definition exec {A : Type} (m : M A) (w : App) : App := (m w).2.
Definition eval {A : Type} (m : M A) (w : App) : Result A := (m w).1.

(** [Date.now()]. *)
Definition Date_now (clock : nat → Z) : M Z :=
  n ← get ticks;
  modify (with_ticks (S n)) ;;
  ret (clock n).

(** [setMessages(value)] and [setMessages(prev => ...)]. *)
Definition setMessages (l : list Message.t) : M unit :=
  modify (with_messages l) ;; emit (SetMessages l).

Definition setLoading (b : bool) : M unit :=
  modify (with_loading b) ;; emit (SetLoading b).

(** [new AbortController()] put into [abortController.current]. *)
Definition newAbortController : M unit :=
  modify (λ w, with_controller (controllers w) (S (controllers w)) (aborted w) w).

(** [signal?.aborted]. *)
Definition signal_aborted (signal : option nat) : M bool :=
  gone ← get aborted;
  ret match signal with
       | Some c => bool_decide (c ∈ gone)
       | None => false
       end.

(** ** Persistence store: [const storage] of the hook *)

Module storage.

Definition KEY : string := "chatbot_messages_openai".

(** [JSON.parse(text)], which throws a SyntaxError on malformed text. *)
Definition JSON_parse (text : string) : M JSON.Value :=
  match JSON.parse text with
  | Some v => ret v
  | None => throw (JS.ErrorObj "SyntaxError" "Unexpected token in JSON")
  end.

(** [getMessages()]. The value is what [JSON.parse] gives: the code casts
    it to [Message[]] and does not look at it. *)
Definition getMessages : M JSON.Value :=
  try_catch
    (item ← get (λ w, localStorage w !! KEY);
     JSON_parse match item with
                | Some text => JS.or_else text "[]"
                | None => "[]"
                end)
    (λ _, ret (JSON.Arr [])).

(** [saveMessages(messages)]. *)
Definition saveMessages (messages : list Message.t) : M unit :=
  modify (λ w,
    with_localStorage
      (<[KEY := JSON.stringify (JSON.Arr (Message.encode <$> messages))]>
         (localStorage w)) w).

(** [clearMessages()]. *)
Definition clearMessages : M unit :=
  modify (λ w, with_localStorage (delete KEY (localStorage w)) w).

End storage.

(** ** [getErrorMessage] *)

Definition getErrorMessage (error : JS.Thrown) : string :=
  match error with
  | JS.ErrorObj _ text =>
      let message := JS.toLowerCase text in
      if JS.includes message "api key" || JS.includes message "api_key" then
        "Chave de API da OpenAI inválida. Verifique sua OPENAI_API_KEY no arquivo .env"
      else if JS.includes message "quota" || JS.includes message "insufficient_quota" then
        "Cota de uso da OpenAI foi excedida. Verifique seu plano ou adicione créditos."
      else if JS.includes message "rate" then
        "Muitas requisições. Aguarde um momento antes de tentar novamente."
      else if JS.includes message "failed to fetch" || JS.includes message "network" then
        "Erro de conexão. Verifique sua internet e tente novamente."
      else if JS.includes message "limite de mensagens atingido" then
        "Você atingiu o limite de mensagens desta conversa. Limpe o chat para continuar."
      else if JS.includes message "request aborted" || JS.includes message "aborted" then
        "Mensagem cancelada pelo usuário."
      else if JS.includes message "timeout" then
        "A requisição demorou muito para responder. Tente novamente."
      else if JS.includes message "model" && JS.includes message "does not exist" then
        "Modelo especificado não existe ou você não tem acesso a ele."
      else text
  | JS.NonError _ => "Ocorreu um erro inesperado. Tente novamente."
  end.

(** ** Completion client: [createOpenAIProvider] *)

Module Provider.

(** [messages.push(m)] on the provider's history. *)
Definition push (m : OpenAIMessage.t) : M unit :=
  modify (λ w, with_history (history w ++ [m]) w).

(** [init(initialPrompts)]. *)
Definition init (initialPrompts : string) : M bool :=
  modify (with_history []) ;;
  (if JS.truthy initialPrompts
   then push (OpenAIMessage.make OpenAIRole.system initialPrompts)
   else ret ()) ;;
  ret true.

(** The [ReadableStream] that [prompt] returns: the chunks its [start]
    still has to pull, how the source ends, and the signal it watches. *)
Record Stream : Type := {
  source : list Event;
  ending : Ending;
  signal : option nat
}.

(** One turn of [for await (const chunk of stream)]: the fragment given
    to [controller.enqueue], if any, and whether the loop goes on (with
    the new [assistantMessage]) or has closed the stream and returned. *)
Inductive Turn : Type :=
| Going (fragment : option string) (assistantMessage : string)
| Closed (fragment : option string).

Definition turn (signal : option nat) (chunk : Chunk) (assistantMessage : string)
    : M Turn :=
  gone ← signal_aborted signal;
  if gone then ret (Closed None)
  else
    let content :=
      match delta_content chunk with
      | Some text => JS.or_else text ""
      | None => ""
      end in
    let assistantMessage' :=
      if JS.truthy content then assistantMessage +:+ content else assistantMessage in
    let fragment := if JS.truthy content then Some content else None in
    if bool_decide (finish_reason chunk = Some "stop") then
      push (OpenAIMessage.make OpenAIRole.assistant assistantMessage') ;;
      ret (Closed fragment)
    else ret (Going fragment assistantMessage').

(** After the loop, and the [catch] around it. A source that is exhausted
    closes the stream; one that throws closes it when the signal is
    aborted and otherwise puts it in error, which the reader's pending
    [read()] throws. *)
Definition finish (signal : option nat) (ending : Ending) (assistantMessage : string)
    : M unit :=
  match ending with
  | Exhausted =>
      if JS.truthy assistantMessage
      then push (OpenAIMessage.make OpenAIRole.assistant assistantMessage)
      else ret ()
  | Broken error =>
      gone ← signal_aborted signal;
      if gone then ret () else throw error
  end.

(** The outer [catch] of [prompt]: every failure is thrown on, some under
    another message. *)
Definition on_error {A : Type} (signal : option nat) (error : JS.Thrown) : M A :=
  gone ← signal_aborted signal;
  if gone then throw (JS.Error "Request aborted by user")
  else
    match error with
    | JS.ErrorObj name message =>
        if String.eqb name "AbortError" then
          throw (JS.Error "Request aborted by user")
        else if JS.includes message "quota" then
          throw (JS.Error
            "Cota de uso da OpenAI foi excedida. Verifique seu plano ou aguarde.")
        else if JS.includes message "rate" then
          throw (JS.Error
            "Muitas requisições. Aguarde um momento antes de tentar novamente.")
        else if JS.includes message "api_key" then
          throw (JS.Error "Chave de API inválida. Verifique sua OPENAI_API_KEY.")
        else throw error
    | JS.NonError _ =>
        throw (JS.Error "Erro desconhecido ao processar mensagem com OpenAI.")
    end.

(** [prompt(text, signal)]. [meanwhile] is what the event loop runs while
    [create] is awaited, [outcome] how [create] settles. *)
Definition prompt (meanwhile : M unit) (outcome : Outcome)
    (text : string) (signal : option nat) : M Stream :=
  try_catch
    (push (OpenAIMessage.make OpenAIRole.user text) ;;
     payload ← get history;
     emit (Request payload signal) ;;
     meanwhile ;;
     match outcome with
     | Rejected error => throw error
     | Resolved events ending =>
         ret {| source := events; ending := ending; signal := signal |}
     end)
    (on_error signal).

End Provider.

(** ** Session core: [useChatbot] *)

Module useChatbot.

(** How [fetch(initialPromptsFile)] settles. *)
Inductive Fetch : Type :=
| Failed (e : JS.Thrown)
| Response (ok : bool) (text : string).

(** The effect run on mount. An array of messages becomes the transcript;
    any other non-empty array or string puts a value in the state that is
    no transcript; [null] has no [length]; the [length] of anything else
    is undefined, which is not above 0. *)
Definition mount : M unit :=
  savedMessages ← storage.getMessages;
  match savedMessages with
  | JSON.Arr items =>
      if (0 <? length items)%nat then
        match Message.decode_all items with
        | Some transcript => setMessages transcript
        | None => modify with_crashed
        end
      else ret ()
  | JSON.Str text =>
      if (0 <? String.length text)%nat then modify with_crashed else ret ()
  | JSON.Null =>
      throw (JS.ErrorObj "TypeError" "Cannot read properties of null (reading 'length')")
  | _ => ret ()
  end.

(** [saveMessages(newMessages)]. *)
Definition saveMessages (newMessages : list Message.t) : M unit :=
  let messagesWithoutSystem :=
    filter (λ m, Message.role m ≠ Role.system) newMessages in
  storage.saveMessages messagesWithoutSystem.

(** [setMessages(prev => { const updated = f(prev); saveMessages(updated);
    return updated })]. An updater is applied when it is requested: React
    applies the queued updates in the order of the requests, and nothing else
    touches the state in between. *)
Definition update_and_save (f : list Message.t → list Message.t) : M unit :=
  prev ← get messages;
  let updated := f prev in
  saveMessages updated ;;
  setMessages updated.

(** [addErrorMessage(error)]. *)
Definition addErrorMessage (clock : nat → Z) (error : JS.Thrown) : M unit :=
  let text := getErrorMessage error in
  now ← Date_now clock;
  let errorMessage := Message.make Role.error text now (Some true) in
  update_and_save (λ prev, prev ++ [errorMessage]).

(** [init()]. *)
Definition init (clock : nat → Z) (fetched : Fetch) : M unit :=
  let initialPrompts :=
    match fetched with
    | Response true text => text
    | _ => ""
    end in
  try_catch
    (Provider.init initialPrompts ;; ret ())
    (λ error, addErrorMessage clock error).

(** [clearChat()]. *)
Definition clearChat : M unit :=
  setMessages [] ;;
  storage.clearMessages.

Definition cancelled : string :=
  "Mensagem cancelada. Você pode enviar uma nova mensagem.".

(** [abortChatMessage()]; [abortController.current] is never empty. *)
Definition abortChatMessage (clock : nat → Z) : M unit :=
  modify (λ w,
    with_controller (abortController w) (controllers w)
      ({[abortController w]} ∪ aborted w) w) ;;
  newAbortController ;;
  now ← Date_now clock;
  let cancelMessage := Message.make Role.error cancelled now (Some true) in
  update_and_save (λ prev, prev ++ [cancelMessage]).

(** The updater of the reading loop: [last.content += chunk] when the
    last message is the assistant's. On an empty transcript [last] is
    undefined and reading [last.role] throws: [None]. *)
Definition extend_last (chunk : string) (prev : list Message.t)
    : option (list Message.t) :=
  match last prev with
  | None => None
  | Some m =>
      if bool_decide (Message.role m = Role.assistant)
      then Some (removelast prev ++ [Message.extend m chunk])
      else Some prev
  end.

(** The body of [while (true)] for one value read from the stream. The
    write to the store that the updater leaves to a timer is recorded as
    [SaveLater] and not carried out: when it runs, its array holds the
    reply as it is by then. *)
Definition on_chunk (chunk : string) (hasContent : bool) : M bool :=
  let hasContent' := if JS.truthy (JS.trim chunk) then true else hasContent in
  prev ← get messages;
  match extend_last chunk prev with
  | Some updated => emit SaveLater ;; setMessages updated
  | None => modify with_crashed
  end ;;
  ret hasContent'.

Definition deliver (fragment : option string) (hasContent : bool) : M bool :=
  match fragment with
  | Some chunk => on_chunk chunk hasContent
  | None => ret hasContent
  end.

(** The reading loop of [sendMessage] run against the stream's [start].
    Each event is one task of the event loop: on a chunk the provider
    takes its turn and the reader consumes what was enqueued before the
    next task; a press on Cancel runs [abortChatMessage]. The loop ends
    when the stream is closed ([done]) and returns [hasContent], or
    throws what the stream was put in error with. *)
Fixpoint read_all (clock : nat → Z) (signal : option nat) (source : list Event)
    (ending : Ending) (assistantMessage : string) (hasContent : bool) : M bool :=
  match source with
  | [] =>
      Provider.finish signal ending assistantMessage ;;
      ret hasContent
  | UserAbort :: rest =>
      abortChatMessage clock ;;
      read_all clock signal rest ending assistantMessage hasContent
  | Delta chunk :: rest =>
      t ← Provider.turn signal chunk assistantMessage;
      match t with
      | Provider.Closed fragment => deliver fragment hasContent
      | Provider.Going fragment assistantMessage' =>
          hasContent' ← deliver fragment hasContent;
          read_all clock signal rest ending assistantMessage' hasContent'
      end
  end.

(** What the event loop runs while the request of [sendMessage] is
    pending: [abortChatMessage] if the user presses Cancel. *)
Definition pending (clock : nat → Z) (cancel : bool) : M unit :=
  if cancel then abortChatMessage clock else ret ().

(** [err instanceof Error && err.message.includes("aborted")]. *)
Definition is_abort (err : JS.Thrown) : bool :=
  match err with
  | JS.ErrorObj _ message => JS.includes message "aborted"
  | JS.NonError _ => false
  end.

(** The updater of both failure branches: the last message goes when it
    is the assistant's and its content trims to nothing. *)
Definition drop_blank_reply (prev : list Message.t) : list Message.t :=
  match last prev with
  | Some m =>
      if bool_decide (Message.role m = Role.assistant)
         && negb (JS.truthy (JS.trim (Message.content m)))
      then removelast prev
      else prev
  | None => prev
  end.

Definition limit_reached : JS.Thrown := JS.Error "Limite de mensagens atingido".
Definition no_answer : JS.Thrown := JS.Error "Nenhuma resposta foi gerada pelo modelo".

(** The [catch] block of [sendMessage]. React may run the updaters, and so
    their writes to the store, after the write of the last line; the
    properties below do not read the store after a failure. *)
Definition on_failure (clock : nat → Z) (updatedMessages : list Message.t)
    (err : JS.Thrown) : M unit :=
  (if is_abort err then update_and_save drop_blank_reply
   else
     (prev ← get messages; setMessages (drop_blank_reply prev)) ;;
     addErrorMessage clock err) ;;
  saveMessages updatedMessages.

(** The [try] block of [sendMessage]. *)
Definition attempt (run : Run) (text : string) (updatedMessages : list Message.t)
    : M unit :=
  current ← get abortController;
  stream ← Provider.prompt
    (pending (clock run) (cancel_while_pending run))
    (request run) text (Some current);
  now ← Date_now (clock run);
  let botMessage := Message.make Role.assistant "" now None in
  let messagesWithBot := updatedMessages ++ [botMessage] in
  setMessages messagesWithBot ;;
  hasContent ← read_all (clock run) (Provider.signal stream)
    (Provider.source stream) (Provider.ending stream) "" false;
  if negb hasContent then throw no_answer else ret ().

(** [sendMessage(text)]; [limit] is [config.limit], and the [messages] of
    its closure are those of the state it is called in. *)
Definition sendMessage (limit : Z) (run : Run) (text : string) : M unit :=
  messages ← get messages;
  if Z.of_nat (length messages) >? limit then
    addErrorMessage (clock run) limit_reached
  else
    setLoading true ;;
    newAbortController ;;
    now ← Date_now (clock run);
    let userMessage := Message.make Role.user text now None in
    let updatedMessages := messages ++ [userMessage] in
    setMessages updatedMessages ;;
    finally
      (try_catch
         (attempt run text updatedMessages)
         (on_failure (clock run) updatedMessages))
      (setLoading false).

End useChatbot.

(** The state of a component that has just been created: no message, not
    loading, the one controller of [useRef(new AbortController())], an
    empty history in the provider; [store] is what [localStorage] holds. *)
Definition created (store : gmap string string) : App :=
  {| messages := []; loading := false; abortController := 0%nat;
     controllers := 1%nat; aborted := ∅; history := [];
     localStorage := store; ticks := 0%nat; trace := []; crashed := false |}.


(** ** Vocabulary of the properties *)

(** The stages of an accepted [sendMessage]: its state once the user
    message is shown, once the request has settled, and once the
    placeholder of the reply is shown. *)
Definition started (clock : nat → Z) (text : string) (w : App) : App :=
  exec (setLoading true ;;
        newAbortController ;;
        now ← Date_now clock;
        setMessages (messages w ++ [Message.make Role.user text now None])) w.

Definition requested (clock : nat → Z) (cancel : bool) (text : string)
    (signal : option nat) (w : App) : App :=
  let payload := history w ++ [OpenAIMessage.make OpenAIRole.user text] in
  exec (useChatbot.pending clock cancel)
    (with_trace (trace w ++ [Request payload signal]) (with_history payload w)).

Definition streaming (clock : nat → Z) (updatedMessages : list Message.t) (w : App) : App :=
  exec (now ← Date_now clock;
        setMessages (updatedMessages ++ [Message.make Role.assistant "" now None])) w.

(** The text of a chunk, and whether it is the one that stops the stream. *)
Definition content_of (chunk : Chunk) : string :=
  match delta_content chunk with
  | Some text => text
  | None => ""
  end.

Definition stops (chunk : Chunk) : bool :=
  bool_decide (finish_reason chunk = Some "stop").

(** The text the provider has accumulated after [events], from [acc]. *)
Fixpoint gathered (acc : string) (events : list Event) : string :=
  match events with
  | [] => acc
  | Delta chunk :: rest => gathered (acc +:+ content_of chunk) rest
  | UserAbort :: rest => gathered acc rest
  end.

(** Events with no press on Cancel and no stopping chunk. *)
Definition flowing (e : Event) : bool :=
  match e with
  | Delta chunk => negb (stops chunk)
  | UserAbort => false
  end.

Definition quiet (events : list Event) : bool := forallb flowing events.

(** Events none of whose chunks carries more than white space. *)
Definition blank (e : Event) : bool :=
  match e with
  | Delta chunk => negb (JS.truthy (JS.trim (content_of chunk)))
  | UserAbort => true
  end.

Definition blank_only (events : list Event) : bool := forallb blank events.

(** Events with no press on Cancel and no text in any chunk. *)
Definition mute (e : Event) : bool :=
  match e with
  | Delta chunk => negb (JS.truthy (content_of chunk))
  | UserAbort => false
  end.

Definition silent (events : list Event) : bool := forallb mute events.

(** The transcript on screen when the first request of a trace is issued:
    the one of the last [setMessages] before it, [shown] if there is none. *)
Fixpoint transcript_at_request (shown : list Message.t) (t : list Effect)
    : option (list Message.t) :=
  match t with
  | [] => None
  | SetMessages transcript :: rest => transcript_at_request transcript rest
  | Request _ _ :: _ => Some shown
  | _ :: rest => transcript_at_request shown rest
  end.

(** The payloads of the requests of a trace. *)
Fixpoint payloads (t : list Effect) : list (list OpenAIMessage.t) :=
  match t with
  | [] => []
  | Request payload _ :: rest => payload :: payloads rest
  | _ :: rest => payloads rest
  end.

(** A computation that only adds to the trace, and no request, and only
    adds to the provider's history. *)
Definition grows {A : Type} (m : M A) : Prop :=
  ∀ w, (∃ t, trace (m w).2 = trace w ++ t ∧ payloads t = [])
       ∧ (∃ more, history (m w).2 = history w ++ more).

(** A message as the completion API reads one: its role and its content. *)
Definition said (m : Message.t) : string * string :=
  (Role.name (Message.role m), Message.content m).

Definition sent (m : OpenAIMessage.t) : string * string :=
  (OpenAIRole.name (OpenAIMessage.role m), OpenAIMessage.content m).

(** The notice a failure leaves in the transcript. *)
Definition notice (err : JS.Thrown) (now : Z) : Message.t :=
  Message.make Role.error (getErrorMessage err) now (Some true).

(** What is left of the session by a [sendMessage] that was turned down:
    one more message, the limit notice, which is also written to the store,
    and nothing else. *)
Definition turned_down (clock : nat → Z) (w w' : App) : Prop :=
  let transcript := messages w ++ [notice useChatbot.limit_reached (clock (ticks w))] in
  messages w' = transcript
  ∧ trace w' = trace w ++ [SetMessages transcript]
  ∧ payloads (trace w') = payloads (trace w)
  ∧ loading w' = loading w
  ∧ abortController w' = abortController w
  ∧ controllers w' = controllers w
  ∧ aborted w' = aborted w
  ∧ history w' = history w
  ∧ crashed w' = crashed w
  ∧ localStorage w'
    = <[storage.KEY :=
          JSON.stringify
            (JSON.Arr (Message.encode <$>
               filter (λ m, Message.role m ≠ Role.system) transcript))]>
        (localStorage w).

(** Whether a chunk is among the events. *)
Definition has_chunk (events : list Event) : bool :=
  existsb (λ e, match e with Delta _ => true | UserAbort => false end) events.

(** The states [w'] in which the provider's side is as in [w]. *)
Definition same_client (w w' : App) : Prop :=
  history w' = history w
  ∧ aborted w' = aborted w
  ∧ abortController w' = abortController w.

(** The entry a reply leaves in the provider's history. *)
Definition reply (text : string) : OpenAIMessage.t :=
  OpenAIMessage.make OpenAIRole.assistant text.

(** The fragment the provider enqueued in a turn. *)
Definition fragment_of (t : Provider.Turn) : option string :=
  match t with
  | Provider.Going fragment _ => fragment
  | Provider.Closed fragment => fragment
  end.

(** ** The text [JSON.stringify] writes *)

(** What may follow a value inside an array or an object. *)
Definition closes (rest : string) : Prop :=
  ∃ r, rest = String "," r ∨ rest = String "}" r ∨ rest = String "]" r.

(** The values of a message: strings, whole numbers and booleans. *)
Definition simple (v : JSON.Value) : Prop :=
  match v with
  | JSON.Str _ | JSON.Num (JSON.Int _) | JSON.Bool _ => True
  | _ => False
  end.

(** A member of an object as it is written. *)
Definition member_text (kx : string * JSON.Value) : string :=
  JSON.quote kx.1 +:+ ":" +:+ JSON.stringify kx.2.

(** An object of at most [n] members, none of them nested. *)
Definition flat (n : nat) (v : JSON.Value) : Prop :=
  match v with
  | JSON.Obj members =>
      members ≠ [] ∧ (length members ≤ n)%nat ∧ Forall (λ kx, simple kx.2) members
  | _ => False
  end.

(** ** Sample inputs *)

Definition fragment (text : string) : Event :=
  Delta {| delta_content := Some text; finish_reason := None |}.

Definition stop : Event :=
  Delta {| delta_content := None; finish_reason := Some "stop" |}.

(** A clock that advances by one at each reading. *)
Definition counting (n : nat) : Z := Z.of_nat n.

(** A run with no press on Cancel while the request is pending. *)
Definition plain (outcome : Outcome) : Run :=
  {| clock := counting; cancel_while_pending := false; request := outcome |}.

(** * Properties *)

Arguments getErrorMessage : simpl never.
Arguments JS.includes : simpl never.
Arguments JS.trim : simpl never.
Arguments JSON.stringify : simpl never.
Arguments JSON.parse : simpl never.

(** ** Completion client *)

(** C8. [init] is idempotent and the last call wins: whatever the history
    was, after [init(a)] followed by [init(b)] it holds one system entry
    with content [b] when [b] is not empty and nothing when [b] is empty,
    so at most one entry; both calls return [true]. *)
Theorem init_last_call_wins (a b : string) (w : App) :
  let twice := Provider.init a ;; Provider.init b in
  eval twice w = Ok true
  ∧ history (exec twice w)
    = (if decide (b = "") then [] else [OpenAIMessage.make OpenAIRole.system b])
  ∧ (length (history (exec twice w)) ≤ 1)%nat.
Proof.
  destruct a, b; cbn; repeat split; lia.
Qed.

Lemma on_error_throws {A : Type} signal error w :
  ∃ e, @Provider.on_error A signal error w = (Throw e, w).
Proof.
  unfold Provider.on_error, signal_aborted, bind, get, ret, throw.
  destruct signal; repeat case_match; eauto.
Qed.

Lemma abort_run clock w :
  useChatbot.abortChatMessage clock w
  = (Ok (), exec (useChatbot.abortChatMessage clock) w).
Proof. reflexivity. Qed.

Lemma prompt_settles clock cancel outcome text signal w :
  match outcome with
  | Rejected _ =>
      ∃ e, Provider.prompt (useChatbot.pending clock cancel) outcome text signal w
           = (Throw e, requested clock cancel text signal w)
  | Resolved events ending =>
      Provider.prompt (useChatbot.pending clock cancel) outcome text signal w
      = (Ok {| Provider.source := events; Provider.ending := ending;
               Provider.signal := signal |},
         requested clock cancel text signal w)
  end.
Proof.
  unfold Provider.prompt, try_catch, requested, exec.
  destruct outcome as [error|events ending], cancel;
    cbv beta iota delta [useChatbot.pending].
  all: unfold bind, Provider.push, get, emit, modify, throw, ret.
  all: rewrite ?abort_run; cbv beta iota; try done.
  all: match goal with |- context [@Provider.on_error _ ?s ?e ?w] =>
         destruct (@on_error_throws Provider.Stream s e w) as [e' ->] end; eauto.
Qed.

Lemma requested_history clock cancel text signal w :
  history (requested clock cancel text signal w)
  = history w ++ [OpenAIMessage.make OpenAIRole.user text].
Proof. by destruct cancel. Qed.

Lemma requested_trace clock cancel text signal w :
  ∃ later, trace (requested clock cancel text signal w)
  = trace w ++ Request (history w ++ [OpenAIMessage.make OpenAIRole.user text]) signal
      :: later.
Proof. destruct cancel; cbn; rewrite <- ?app_assoc; eauto. Qed.

Lemma requested_trace_exact clock cancel text signal w :
  trace (requested clock cancel text signal w)
  = trace w
    ++ Request (history w ++ [OpenAIMessage.make OpenAIRole.user text]) signal
    :: (if cancel
        then [SetMessages
                (messages w ++ [Message.make Role.error useChatbot.cancelled
                                  (clock (ticks w)) (Some true)])]
        else []).
Proof. destruct cancel; cbn; by rewrite <- ?app_assoc. Qed.

(** ** Persistence store *)

Lemma parse_empty_array : JSON.parse "[]" = Some (JSON.Arr []).
Proof. reflexivity. Qed.

Lemma decode_encode (m : Message.t) : Message.decode (Message.encode m) = Some m.
Proof. by destruct m as [[] c ts [b|]]. Qed.

Lemma decode_all_encode (transcript : list Message.t) :
  Message.decode_all (Message.encode <$> transcript) = Some transcript.
Proof.
  induction transcript as [|m rest IH]; [done|].
  rewrite fmap_cons. cbn [Message.decode_all]. by rewrite decode_encode, IH.
Qed.

(** What [JSON.stringify] writes for a transcript, [JSON.parse] reads back:
    the length of the text is fuel enough for it. *)

Lemma append_assoc (a b c : string) : (a +:+ b) +:+ c = a +:+ (b +:+ c).
Proof.
  induction a as [|x a IH]; [done|].
  change (String x ((a +:+ b) +:+ c) = String x (a +:+ (b +:+ c))). by rewrite IH.
Qed.

Lemma parse_chars_escape (c : ascii) (tail : string) :
  JSON.parse_chars (JSON.escape c +:+ tail)
  = match JSON.parse_chars tail with
    | Some (t, r) => Some (String c t, r)
    | None => None
    end.
Proof. destruct c as [[] [] [] [] [] [] [] []]; reflexivity. Qed.

Lemma parse_chars_quoted (s rest : string) :
  JSON.parse_chars (JSON.escape_all s +:+ String JSON.dquote rest) = Some (s, rest).
Proof.
  induction s as [|c s IH]; [done|].
  cbn [JSON.escape_all]. by rewrite append_assoc, parse_chars_escape, IH.
Qed.

Lemma digits_written (u : Decimal.uint) (rest : string) :
  closes rest →
  JSON.digits (NilEmpty.string_of_uint u +:+ rest) = (NilEmpty.string_of_uint u, rest).
Proof.
  intros (r & H). induction u as [|u IH|u IH|u IH|u IH|u IH|u IH|u IH|u IH|u IH|u IH];
    [by destruct H as [-> | [-> | ->]]|..].
  all: cbn [NilEmpty.string_of_uint].
  all: change (String ?c ?s +:+ rest) with (String c (s +:+ rest)).
  all: cbn [JSON.digits]; change (JSON.is_digit _) with true; cbv iota.
  all: by rewrite IH.
Qed.

Lemma nzhead_headed (u v : Decimal.uint) : Decimal.nzhead u ≠ Decimal.D0 v.
Proof. induction u; cbn; done. Qed.

Lemma to_uint_headed (p : positive) (v : Decimal.uint) : Pos.to_uint p ≠ Decimal.D0 v.
Proof.
  intros H.
  assert (Decimal.unorm (Pos.to_uint p) = Pos.to_uint p) as Hn.
  { rewrite <- (DecimalPos.Unsigned.to_of (Pos.to_uint p)).
    by rewrite DecimalPos.Unsigned.of_to. }
  rewrite H, DecimalFacts.unorm_D0 in Hn. unfold Decimal.unorm in Hn.
  pose proof (nzhead_headed v v) as Hv.
  destruct (Decimal.nzhead v); try done.
  injection Hn as <-. by apply (DecimalPos.Unsigned.to_uint_nonzero p).
Qed.

Lemma Z_of_digits_written (u : Decimal.uint) :
  JSON.Z_of_digits (NilEmpty.string_of_uint u) = Z.of_uint u.
Proof. unfold JSON.Z_of_digits. by rewrite NilEmpty.usu. Qed.

Lemma of_to_uint (p : positive) : Z.of_uint (Pos.to_uint p) = Z.pos p.
Proof. unfold Z.of_uint. by rewrite DecimalPos.Unsigned.of_to. Qed.

(** The digits of a positive number are read back as the number. *)
Lemma parse_digits_written (neg : bool) (p : positive) (rest : string) :
  closes rest →
  JSON.parse_number
    ((if neg then "-" else "") +:+ NilEmpty.string_of_uint (Pos.to_uint p) +:+ rest)
  = Some (JSON.Num (JSON.Int (if neg then Z.neg p else Z.pos p)), rest).
Proof.
  intros Hc. pose proof (of_to_uint p) as Hp.
  pose proof (to_uint_headed p) as Hh. pose proof (DecimalPos.Unsigned.to_uint_nonnil p) as Hn.
  rewrite <- (Z_of_digits_written (Pos.to_uint p)) in Hp.
  destruct (Pos.to_uint p) as [|u|u|u|u|u|u|u|u|u|u]; [done|by destruct (Hh u)|..].
  all: cbn [NilEmpty.string_of_uint] in *.
  all: unfold JSON.parse_number.
  all: destruct neg.
  all: change ("-" +:+ ?s) with (String "-" s); change ("" +:+ ?s) with s.
  all: change (String ?c ?s +:+ rest) with (String c (s +:+ rest)).
  all: cbv iota beta.
  all: cbn [JSON.digits]; change (JSON.is_digit _) with true; cbv iota.
  all: rewrite (digits_written u rest Hc); cbv iota beta.
  all: change (Ascii.eqb _ "0") with false; cbn [andb].
  all: destruct Hc as (r & [-> | [-> | ->]]); cbv iota beta.
  all: cbn [JS.truthy orb Ascii.eqb]; rewrite ?Hp; try done.
Qed.

Lemma parse_number_written (z : Z) (rest : string) :
  closes rest →
  JSON.parse_number (JSON.string_of_Z z +:+ rest) = Some (JSON.Num (JSON.Int z), rest).
Proof.
  intros Hc. unfold JSON.string_of_Z. destruct z as [|p|p].
  - by destruct Hc as (r & [-> | [-> | ->]]).
  - pose proof (parse_digits_written false p rest Hc) as H.
    pose proof (DecimalPos.Unsigned.to_uint_nonnil p) as Hn.
    cbn [Z.to_int NilZero.string_of_int]. unfold NilZero.string_of_uint.
    by destruct (Pos.to_uint p).
  - pose proof (parse_digits_written true p rest Hc) as H.
    pose proof (DecimalPos.Unsigned.to_uint_nonnil p) as Hn.
    cbn [Z.to_int NilZero.string_of_int]. unfold NilZero.string_of_uint.
    by destruct (Pos.to_uint p).
Qed.

(** A number is read by [parse_number]: its text starts with a digit or
    with the sign. *)
Lemma parse_value_number (z : Z) (fuel : nat) (rest : string) :
  JSON.parse_value (S fuel) (JSON.string_of_Z z +:+ rest)
  = JSON.parse_number (JSON.string_of_Z z +:+ rest).
Proof.
  unfold JSON.string_of_Z. destruct z as [|p|p]; [done|..].
  all: cbn [Z.to_int NilZero.string_of_int]; unfold NilZero.string_of_uint.
  all: by destruct (Pos.to_uint p).
Qed.

Lemma parse_value_simple (v : JSON.Value) (fuel : nat) (rest : string) :
  simple v → closes rest →
  JSON.parse_value (S fuel) (JSON.stringify v +:+ rest) = Some (v, rest).
Proof.
  intros Hv Hc. destruct v as [|[]|[z|]|s| |]; try done.
  - change (JSON.stringify (JSON.Num (JSON.Int z))) with (JSON.string_of_Z z).
    by rewrite parse_value_number, parse_number_written.
  - change (JSON.stringify (JSON.Str s)) with (JSON.quote s). unfold JSON.quote.
    change (String JSON.dquote ?x +:+ rest) with (String JSON.dquote (x +:+ rest)).
    rewrite append_assoc.
    change (String JSON.dquote "" +:+ rest) with (String JSON.dquote rest).
    cbn [JSON.parse_value JSON.skip_ws]. change (JSON.is_ws JSON.dquote) with false.
    cbv iota. unfold JSON.dquote at 1. cbv iota.
    by rewrite parse_chars_quoted.
Qed.

Lemma member_text_shape (k : string) (x : JSON.Value) (tail : string) :
  member_text (k, x) +:+ tail
  = String JSON.dquote
      (JSON.escape_all k +:+ String JSON.dquote (String ":" (JSON.stringify x +:+ tail))).
Proof.
  unfold member_text, JSON.quote. cbn [fst snd].
  rewrite !append_assoc.
  change (String JSON.dquote ?a +:+ ?b) with (String JSON.dquote (a +:+ b)).
  rewrite !append_assoc.
  done.
Qed.

Lemma parse_member (k : string) (x : JSON.Value) (fuel : nat) (tail : string)
    (acc : list (string * JSON.Value)) :
  simple x →
  JSON.parse_members (S (S fuel)) (member_text (k, x) +:+ String "," tail) acc
  = JSON.parse_members (S fuel) tail (acc ++ [(k, x)])
  ∧ JSON.parse_members (S (S fuel)) (member_text (k, x) +:+ String "}" tail) acc
    = Some (JSON.Obj (acc ++ [(k, x)]), tail).
Proof.
  intros Hx. rewrite !member_text_shape.
  split.
  all: cbn [JSON.parse_members JSON.skip_ws]; change (JSON.is_ws JSON.dquote) with false.
  all: cbv iota; unfold JSON.dquote at 1; cbv iota.
  all: rewrite parse_chars_quoted; cbv iota beta.
  all: cbn [JSON.skip_ws]; change (JSON.is_ws ":") with false; cbv iota.
  all: rewrite parse_value_simple by (done || (eexists; eauto)).
  all: done.
Qed.

Lemma parse_members_written (members acc : list (string * JSON.Value)) (fuel : nat)
    (rest : string) :
  Forall (λ kx, simple kx.2) members → members ≠ [] → (length members ≤ fuel)%nat →
  JSON.parse_members (S fuel) (JSON.join member_text members +:+ String "}" rest) acc
  = Some (JSON.Obj (acc ++ members), rest).
Proof.
  revert acc fuel. induction members as [|[k x] tl IH]; intros acc fuel Hs Hne Hf; [done|].
  apply Forall_cons in Hs as [Hx Hs]. cbn [snd] in Hx.
  destruct fuel as [|fuel]; [cbn in Hf; lia|].
  destruct tl as [|kx tl].
  - cbn [JSON.join]. by apply parse_member.
  - change (JSON.join member_text ((k, x) :: kx :: tl))
      with (member_text (k, x) +:+ "," +:+ JSON.join member_text (kx :: tl)).
    rewrite !append_assoc.
    change ("," +:+ ?s) with (String "," s).
    destruct (parse_member k x fuel
                (JSON.join member_text (kx :: tl) +:+ String "}" rest) acc Hx) as [-> _].
    rewrite IH; [|done|done|cbn in *; lia].
    by rewrite <- app_assoc.
Qed.

Lemma length_append (a b : string) :
  String.length (a +:+ b) = (String.length a + String.length b)%nat.
Proof.
  induction a as [|x a IH]; [done|].
  change (S (String.length (a +:+ b)) = S (String.length a + String.length b)).
  by rewrite IH.
Qed.

Lemma join_more {A : Type} (text : A → string) (x y : A) (l : list A) :
  JSON.join text (x :: y :: l) = text x +:+ String "," (JSON.join text (y :: l)).
Proof. done. Qed.

Lemma stringify_object (members : list (string * JSON.Value)) :
  JSON.stringify (JSON.Obj members)
  = String "{" (JSON.join member_text members +:+ "}").
Proof. done. Qed.

Lemma stringify_array (items : list JSON.Value) :
  JSON.stringify (JSON.Arr items)
  = String "[" (JSON.join JSON.stringify items +:+ "]").
Proof. done. Qed.

Lemma members_open (members : list (string * JSON.Value)) (tail : string) :
  members ≠ [] →
  ∃ t, JSON.join member_text members +:+ tail = String JSON.dquote t.
Proof.
  destruct members as [|[k x] [|kx tl]]; [done|..]; intros _.
  - cbn [JSON.join]. rewrite member_text_shape. by eexists.
  - rewrite join_more, append_assoc, member_text_shape. by eexists.
Qed.

Lemma parse_value_flat (n : nat) (v : JSON.Value) (fuel : nat) (rest : string) :
  flat n v → (n ≤ fuel)%nat →
  JSON.parse_value (S (S fuel)) (JSON.stringify v +:+ rest) = Some (v, rest).
Proof.
  destruct v as [| | | | |members]; try done. intros (Hne & Hn & Hs) Hf.
  rewrite stringify_object.
  change (String "{" ?a +:+ rest) with (String "{" (a +:+ rest)).
  rewrite append_assoc. change ("}" +:+ rest) with (String "}" rest).
  pose proof (parse_members_written members [] fuel rest Hs Hne ltac:(lia)) as Hp.
  destruct (members_open members (String "}" rest) Hne) as [t Ht].
  rewrite Ht in *.
  cbn [JSON.parse_value JSON.skip_ws]. change (JSON.is_ws "{") with false. cbv iota.
  change (JSON.skip_ws (String JSON.dquote t)) with (String JSON.dquote t).
  unfold JSON.dquote at 1. cbv iota.
  exact Hp.
Qed.

Lemma flat_open (n : nat) (v : JSON.Value) (tail : string) :
  flat n v → ∃ t, JSON.stringify v +:+ tail = String "{" t.
Proof.
  destruct v; try done. intros _. rewrite stringify_object. by eexists.
Qed.

Lemma parse_element (n : nat) (v : JSON.Value) (fuel : nat) (tail : string)
    (acc : list JSON.Value) :
  flat n v → (n ≤ fuel)%nat →
  JSON.parse_elements (S (S (S fuel))) (JSON.stringify v +:+ String "," tail) acc
  = JSON.parse_elements (S (S fuel)) tail (acc ++ [v])
  ∧ JSON.parse_elements (S (S (S fuel))) (JSON.stringify v +:+ String "]" tail) acc
    = Some (JSON.Arr (acc ++ [v]), tail).
Proof.
  intros Hv Hf. split.
  all: cbn [JSON.parse_elements].
  all: rewrite (parse_value_flat n) by done.
  all: done.
Qed.

Lemma parse_elements_written (n : nat) (items acc : list JSON.Value) (fuel : nat)
    (rest : string) :
  Forall (flat n) items → items ≠ [] → (length items + n ≤ fuel)%nat →
  JSON.parse_elements (S (S fuel)) (JSON.join JSON.stringify items +:+ String "]" rest) acc
  = Some (JSON.Arr (acc ++ items), rest).
Proof.
  revert acc fuel. induction items as [|v tl IH]; intros acc fuel Hs Hne Hf; [done|].
  apply Forall_cons in Hs as [Hv Hs].
  destruct fuel as [|fuel]; [cbn in Hf; lia|].
  destruct tl as [|v' tl].
  - cbn [JSON.join]. apply (parse_element n); [done|cbn in Hf; lia].
  - rewrite join_more, append_assoc.
    change (String "," ?a +:+ ?b) with (String "," (a +:+ b)).
    destruct (parse_element n v fuel
                (JSON.join JSON.stringify (v' :: tl) +:+ String "]" rest) acc Hv
                ltac:(cbn in Hf; lia)) as [-> _].
    rewrite IH; [|done|done|cbn in *; lia].
    by rewrite <- app_assoc.
Qed.

(** Every written item takes at least [k] characters. *)
Lemma join_long (k : nat) (items : list JSON.Value) :
  Forall (λ v, (k ≤ String.length (JSON.stringify v))%nat) items →
  (k * length items ≤ String.length (JSON.join JSON.stringify items))%nat.
Proof.
  induction items as [|v [|v' tl] IH]; intros Hs.
  - cbn. lia.
  - apply Forall_cons in Hs as [Hv _]. cbn [JSON.join length]. lia.
  - apply Forall_cons in Hs as [Hv Hs]. specialize (IH Hs).
    rewrite join_more, length_append.
    change (String.length (String "," ?a)) with (S (String.length a)).
    cbn [length] in *. lia.
Qed.

Lemma parse_written (n : nat) (items : list JSON.Value) :
  Forall (flat n) items →
  Forall (λ v, (n + 2 ≤ String.length (JSON.stringify v))%nat) items →
  JSON.parse (JSON.stringify (JSON.Arr items)) = Some (JSON.Arr items).
Proof.
  intros Hs Hl. destruct items as [|v tl] eqn:E; [done|]. rewrite <- E in *.
  assert (items ≠ []) as Hne by by rewrite E.
  unfold JSON.parse. rewrite stringify_array.
  pose proof (join_long _ items Hl) as Hlong.
  assert (∃ fuel, String.length (JSON.join JSON.stringify items +:+ "]") = S fuel
                  ∧ (length items + n ≤ fuel)%nat) as (fuel & Hfuel & Hf).
  { rewrite length_append. change (String.length "]") with 1%nat.
    exists (String.length (JSON.join JSON.stringify items)).
    split; [lia|].
    assert (1 ≤ length items)%nat by (rewrite E; cbn; lia). nia. }
  change (String.length (String "[" ?a)) with (S (String.length a)).
  rewrite Hfuel.
  pose proof (parse_elements_written n items [] fuel "" Hs Hne Hf) as Hp.
  change (JSON.join JSON.stringify items +:+ "]")
    with (JSON.join JSON.stringify items +:+ String "]" "") in *.
  destruct (flat_open n v (match tl with [] => "" | _ => String "," (JSON.join JSON.stringify tl) end +:+ "]")) as [t Ht].
  { rewrite E in Hs. by apply Forall_cons in Hs as [? _]. }
  assert (JSON.join JSON.stringify items +:+ String "]" "" = String "{" t) as Hopen.
  { rewrite <- Ht, E. destruct tl; [done|]. by rewrite join_more, append_assoc. }
  rewrite Hopen in *.
  cbn [JSON.parse_value JSON.skip_ws]. change (JSON.is_ws "[") with false. cbv iota.
  change (JSON.skip_ws (String "{" t)) with (String "{" t). cbv iota.
  by rewrite Hp.
Qed.

Lemma encode_flat (m : Message.t) : flat 4 (Message.encode m).
Proof.
  destruct m as [r c ts [b|]]; cbn; repeat split; try done; try lia.
  all: repeat constructor.
Qed.

Lemma encode_long (m : Message.t) :
  (6 ≤ String.length (JSON.stringify (Message.encode m)))%nat.
Proof.
  unfold Message.encode. rewrite stringify_object.
  cbn [app]. rewrite join_more. rewrite append_assoc, member_text_shape.
  do 2 change (String.length (String ?a ?b)) with (S (String.length b)).
  change (JSON.escape_all "role") with "role".
  rewrite length_append. change (String.length "role") with 4%nat.
  lia.
Qed.

Lemma parse_transcript (l : list Message.t) :
  JSON.parse (JSON.stringify (JSON.Arr (Message.encode <$> l)))
  = Some (JSON.Arr (Message.encode <$> l)).
Proof.
  apply (parse_written 4).
  - apply Forall_fmap, Forall_forall. intros m _. apply encode_flat.
  - apply Forall_fmap, Forall_forall. intros m _. apply encode_long.
Qed.

Lemma array_truthy (items : list JSON.Value) (other : string) :
  JS.or_else (JSON.stringify (JSON.Arr items)) other = JSON.stringify (JSON.Arr items).
Proof. by rewrite stringify_array. Qed.

Lemma getMessages_run (w : App) :
  storage.getMessages w
  = (Ok match localStorage w !! storage.KEY with
        | Some text =>
            match JSON.parse (JS.or_else text "[]") with
            | Some v => v
            | None => JSON.Arr []
            end
        | None => JSON.Arr []
        end, w).
Proof.
  unfold storage.getMessages, try_catch, bind, get, storage.JSON_parse.
  destruct (localStorage w !! storage.KEY) as [text|]; cbv beta iota.
  - by destruct (JSON.parse (JS.or_else text "[]")).
  - by rewrite parse_empty_array.
Qed.




(** ** The trace only grows *)

Lemma payloads_app (t1 t2 : list Effect) :
  payloads (t1 ++ t2) = payloads t1 ++ payloads t2.
Proof.
  induction t1 as [|[] t1 IH]; cbn; by rewrite ?IH.
Qed.

Lemma grows_ret {A : Type} (a : A) : grows (ret a).
Proof. intros w. split; exists []; by rewrite app_nil_r. Qed.

Lemma grows_throw {A : Type} (e : JS.Thrown) : grows (@throw A e).
Proof. intros w. split; exists []; by rewrite app_nil_r. Qed.

Lemma grows_get {A : Type} (field : App → A) : grows (get field).
Proof. intros w. split; exists []; by rewrite app_nil_r. Qed.

Lemma grows_modify (f : App → App) :
  (∀ w, trace (f w) = trace w ∧ history (f w) = history w) → grows (modify f).
Proof.
  intros H w. destruct (H w) as [Ht Hh].
  split; exists []; cbn; by rewrite ?Ht, ?Hh, app_nil_r.
Qed.

Lemma grows_emit (e : Effect) :
  (∀ payload signal, e ≠ Request payload signal) → grows (emit e).
Proof.
  intros H w. split.
  - exists [e]. split; [done|]. destruct e; try done. by destruct (H payload signal).
  - exists []. by rewrite app_nil_r.
Qed.

(** Two steps that only add, one after the other. *)
Lemma grows_then (w w1 w2 : App) :
  (∃ t, trace w1 = trace w ++ t ∧ payloads t = [])
  ∧ (∃ more, history w1 = history w ++ more) →
  (∃ t, trace w2 = trace w1 ++ t ∧ payloads t = [])
  ∧ (∃ more, history w2 = history w1 ++ more) →
  (∃ t, trace w2 = trace w ++ t ∧ payloads t = [])
  ∧ (∃ more, history w2 = history w ++ more).
Proof.
  intros [(t & Ht & Hp) (more & Hh)] [(t' & Ht' & Hp') (more' & Hh')]. split.
  - exists (t ++ t'). by rewrite Ht', Ht, app_assoc, payloads_app, Hp, Hp'.
  - exists (more ++ more'). by rewrite Hh', Hh, app_assoc.
Qed.

Lemma grows_bind {A B : Type} (m : M A) (f : A → M B) :
  grows m → (∀ a, grows (f a)) → grows (bind m f).
Proof.
  intros Hm Hf w. unfold bind. pose proof (Hm w) as H1.
  destruct (m w) as [[a|e] w1]; cbn [snd] in *; [|done].
  exact (grows_then w w1 _ H1 (Hf a w1)).
Qed.

Lemma grows_try_catch {A : Type} (body : M A) (handler : JS.Thrown → M A) :
  grows body → (∀ e, grows (handler e)) → grows (try_catch body handler).
Proof.
  intros Hm Hf w. unfold try_catch. pose proof (Hm w) as H1.
  destruct (body w) as [[a|e] w1]; cbn [snd] in *; [done|].
  exact (grows_then w w1 _ H1 (Hf e w1)).
Qed.

Lemma grows_finally {A : Type} (body : M A) (last : M unit) :
  grows body → grows last → grows (finally body last).
Proof.
  intros Hm Hf w. unfold finally. pose proof (Hm w) as H1.
  destruct (body w) as [r w1]; cbn [snd] in *.
  pose proof (grows_then w w1 _ H1 (Hf w1)) as H2.
  by destruct (last w1) as [[[]|e] w2].
Qed.

Create HintDb grows.
#[local] Hint Resolve grows_ret grows_throw grows_get : grows.

Ltac grows :=
  repeat first
    [ progress intros
    | progress cbv zeta
    | solve [auto 2 with grows]
    | apply grows_bind | apply grows_try_catch | apply grows_finally
    | apply grows_ret | apply grows_throw | apply grows_get
    | apply grows_emit; discriminate
    | apply grows_modify; intros; split; reflexivity
    | match goal with |- grows (match ?x with _ => _ end) => destruct x end
    | match goal with |- grows (if ?x then _ else _) => destruct x end ].

Lemma grows_setMessages l : grows (setMessages l).
Proof. unfold setMessages. grows. Qed.

Lemma grows_setLoading b : grows (setLoading b).
Proof. unfold setLoading. grows. Qed.

Lemma grows_Date_now clock : grows (Date_now clock).
Proof. unfold Date_now. grows. Qed.

Lemma grows_newAbortController : grows newAbortController.
Proof. unfold newAbortController. grows. Qed.

Lemma grows_signal_aborted signal : grows (signal_aborted signal).
Proof. unfold signal_aborted. grows. Qed.

#[local] Hint Resolve grows_setMessages grows_setLoading grows_Date_now
  grows_newAbortController grows_signal_aborted : grows.

Lemma grows_saveMessages l : grows (useChatbot.saveMessages l).
Proof. unfold useChatbot.saveMessages, storage.saveMessages. grows. Qed.

#[local] Hint Resolve grows_saveMessages : grows.

Lemma grows_update_and_save f : grows (useChatbot.update_and_save f).
Proof. unfold useChatbot.update_and_save. grows. Qed.

#[local] Hint Resolve grows_update_and_save : grows.

Lemma grows_addErrorMessage clock err : grows (useChatbot.addErrorMessage clock err).
Proof. unfold useChatbot.addErrorMessage. grows. Qed.

Lemma grows_abortChatMessage clock : grows (useChatbot.abortChatMessage clock).
Proof. unfold useChatbot.abortChatMessage. grows. Qed.

Lemma grows_push m : grows (Provider.push m).
Proof.
  intros w. split.
  - exists []. by rewrite app_nil_r.
  - by exists [m].
Qed.

#[local] Hint Resolve grows_addErrorMessage grows_abortChatMessage grows_push : grows.

Lemma grows_turn signal chunk acc : grows (Provider.turn signal chunk acc).
Proof. unfold Provider.turn. grows. Qed.

Lemma grows_finish signal ending acc : grows (Provider.finish signal ending acc).
Proof. unfold Provider.finish. grows. Qed.

Lemma grows_on_chunk chunk hc : grows (useChatbot.on_chunk chunk hc).
Proof. unfold useChatbot.on_chunk. grows. Qed.

#[local] Hint Resolve grows_turn grows_finish grows_on_chunk : grows.

Lemma grows_deliver fragment hc : grows (useChatbot.deliver fragment hc).
Proof. unfold useChatbot.deliver. grows. Qed.

#[local] Hint Resolve grows_deliver : grows.

Lemma grows_read_all clock signal source ending acc hc :
  grows (useChatbot.read_all clock signal source ending acc hc).
Proof.
  revert acc hc.
  induction source as [|[chunk|] rest IH]; intros acc hc;
    cbn [useChatbot.read_all]; grows.
Qed.

Lemma grows_on_failure clock updatedMessages err :
  grows (useChatbot.on_failure clock updatedMessages err).
Proof. unfold useChatbot.on_failure. grows. Qed.

Lemma grows_pending clock cancel : grows (useChatbot.pending clock cancel).
Proof. unfold useChatbot.pending. grows. Qed.

#[local] Hint Resolve grows_read_all grows_on_failure grows_pending : grows.

(** ** The stages of [sendMessage] *)

Lemma sendMessage_over limit run text w :
  limit < Z.of_nat (length (messages w)) →
  useChatbot.sendMessage limit run text w
  = useChatbot.addErrorMessage (clock run) useChatbot.limit_reached w.
Proof.
  intros H. unfold useChatbot.sendMessage, bind at 1, get. cbv beta iota.
  destruct (Z.gtb_spec (Z.of_nat (length (messages w))) limit); [done|lia].
Qed.

Lemma sendMessage_within limit run text w :
  Z.of_nat (length (messages w)) ≤ limit →
  let updatedMessages :=
    messages w ++ [Message.make Role.user text (clock run (ticks w)) None] in
  useChatbot.sendMessage limit run text w
  = finally
      (try_catch (useChatbot.attempt run text updatedMessages)
         (useChatbot.on_failure (clock run) updatedMessages))
      (setLoading false)
      (started (clock run) text w).
Proof.
  intros H. unfold useChatbot.sendMessage, bind at 1, get. cbv beta iota.
  destruct (Z.gtb_spec (Z.of_nat (length (messages w))) limit); [lia|done].
Qed.

Lemma started_fields clock text w :
  let w0 := started clock text w in
  messages w0 = messages w ++ [Message.make Role.user text (clock (ticks w)) None]
  ∧ trace w0
    = trace w ++ [SetLoading true;
                  SetMessages (messages w ++ [Message.make Role.user text (clock (ticks w)) None])]
  ∧ history w0 = history w
  ∧ abortController w0 = controllers w
  ∧ aborted w0 = aborted w
  ∧ loading w0 = true
  ∧ ticks w0 = S (ticks w).
Proof. cbn. by rewrite <- app_assoc. Qed.

Lemma streaming_trace clock u w :
  trace (streaming clock u w)
  = trace w ++ [SetMessages (u ++ [Message.make Role.assistant "" (clock (ticks w)) None])].
Proof. reflexivity. Qed.

Lemma attempt_rejected run text u e w0 :
  request run = Rejected e →
  ∃ e', useChatbot.attempt run text u w0
        = (Throw e', requested (clock run) (cancel_while_pending run) text
                       (Some (abortController w0)) w0).
Proof.
  intros Hr. unfold useChatbot.attempt, bind at 1, get. cbv beta iota.
  unfold bind at 1.
  pose proof (prompt_settles (clock run) (cancel_while_pending run) (request run) text
                (Some (abortController w0)) w0) as H.
  rewrite Hr in *. destruct H as [e' ->]. eauto.
Qed.

Lemma attempt_resolved run text u events ending w0 :
  request run = Resolved events ending →
  useChatbot.attempt run text u w0
  = (hasContent ← useChatbot.read_all (clock run) (Some (abortController w0))
                    events ending "" false;
     if negb hasContent then throw useChatbot.no_answer else ret ())
      (streaming (clock run) u
         (requested (clock run) (cancel_while_pending run) text
            (Some (abortController w0)) w0)).
Proof.
  intros Hr. unfold useChatbot.attempt, bind at 1, get. cbv beta iota.
  unfold bind at 1.
  pose proof (prompt_settles (clock run) (cancel_while_pending run) (request run) text
                (Some (abortController w0)) w0) as H.
  rewrite Hr in *. rewrite H. reflexivity.
Qed.

(** After the request has settled the trace only grows. *)
Lemma after_request run text u w0 :
  let w1 := requested (clock run) (cancel_while_pending run) text
              (Some (abortController w0)) w0 in
  let w' := exec (finally
                    (try_catch (useChatbot.attempt run text u)
                       (useChatbot.on_failure (clock run) u))
                    (setLoading false)) w0 in
  (∃ t, trace w' = trace w1 ++ t ∧ payloads t = [])
  ∧ (∃ more, history w' = history w1 ++ more).
Proof.
  intros w1 w'. unfold w', exec.
  assert (∃ k : M unit, grows k
            ∧ finally (try_catch (useChatbot.attempt run text u)
                         (useChatbot.on_failure (clock run) u))
                (setLoading false) w0 = k w1) as (k & Hk & ->).
  { destruct (request run) as [e|events ending] eqn:Hr.
    - destruct (attempt_rejected run text u e w0 Hr) as [e' He].
      exists (finally (useChatbot.on_failure (clock run) u e') (setLoading false)).
      split; [grows|]. unfold finally, try_catch. by rewrite He.
    - exists (finally
                (try_catch
                   (bind (now ← Date_now (clock run);
                          setMessages (u ++ [Message.make Role.assistant "" now None]))
                      (λ _, hasContent ← useChatbot.read_all (clock run)
                                         (Some (abortController w0)) events ending "" false;
                            if negb hasContent then throw useChatbot.no_answer else ret ()))
                   (useChatbot.on_failure (clock run) u))
                (setLoading false)).
      split; [grows|]. unfold finally, try_catch.
      by rewrite (attempt_resolved run text u events ending w0 Hr). }
  apply Hk.
Qed.

(** An accepted [sendMessage] shows the user message, then issues the
    request with the provider's history and the new text. *)
Lemma accepted_trace limit run text w :
  Z.of_nat (length (messages w)) ≤ limit →
  let shown := messages w ++ [Message.make Role.user text (clock run (ticks w)) None] in
  let payload := history w ++ [OpenAIMessage.make OpenAIRole.user text] in
  ∃ later,
    trace (exec (useChatbot.sendMessage limit run text) w)
    = trace w ++ SetLoading true :: SetMessages shown
        :: Request payload (Some (controllers w)) :: later
    ∧ payloads later = [].
Proof.
  intros H shown payload. unfold exec at 1. rewrite sendMessage_within by done.
  destruct (after_request run text shown (started (clock run) text w))
    as [(t & Ht & Hp) _].
  unfold exec in Ht. fold shown. rewrite Ht, requested_trace_exact.
  destruct (started_fields (clock run) text w) as (_ & -> & -> & -> & _).
  eexists. split; [by rewrite <- !app_assoc|].
  rewrite payloads_app, Hp. by destruct (cancel_while_pending run).
Qed.

Lemma accepted_history limit run text w :
  Z.of_nat (length (messages w)) ≤ limit →
  ∃ more, history (exec (useChatbot.sendMessage limit run text) w)
          = history w ++ OpenAIMessage.make OpenAIRole.user text :: more.
Proof.
  intros H. unfold exec at 1. rewrite sendMessage_within by done.
  destruct (after_request run text
              (messages w ++ [Message.make Role.user text (clock run (ticks w)) None])
              (started (clock run) text w)) as [_ (more & Hh)].
  unfold exec in Hh. rewrite Hh, requested_history.
  destruct (started_fields (clock run) text w) as (_ & _ & -> & _).
  exists more. by rewrite <- app_assoc.
Qed.

(** C9. [prompt(text, signal)] appends the user entry to the history before
    it issues the request, whose payload ends with it, and no path takes it
    back: however the request settles the history is the old one with the
    user entry added; a rejected request is thrown on and leaves it there,
    so that the payload of the next call still has the turn of the failed
    one. Nor does the rest of a [sendMessage] take it back: whatever the
    run, the history it leaves starts with the old one and the user entry. *)
Theorem prompt_keeps_user_turn (clock : nat → Z) (cancel : bool) (text : string)
    (signal : option nat) (w : App) :
  let turn := OpenAIMessage.make OpenAIRole.user text in
  let call outcome :=
    Provider.prompt (useChatbot.pending clock cancel) outcome text signal in
  (∀ outcome,
     history (exec (call outcome) w) = history w ++ [turn]
     ∧ ∃ later, trace (exec (call outcome) w)
                = trace w ++ Request (history w ++ [turn]) signal :: later)
  ∧ (∀ error, ∃ thrown, eval (call (Rejected error)) w = Throw thrown)
  ∧ (∀ error cancel' outcome' text' signal',
       let w1 := exec (call (Rejected error)) w in
       let w2 :=
         exec (Provider.prompt (useChatbot.pending clock cancel') outcome' text' signal')
           w1 in
       ∃ later,
         trace w2
         = trace w1
           ++ Request (history w ++ [turn; OpenAIMessage.make OpenAIRole.user text'])
                signal' :: later)
  ∧ (∀ limit run, Z.of_nat (length (messages w)) ≤ limit →
       ∃ more, history (exec (useChatbot.sendMessage limit run text) w)
               = history w ++ turn :: more).
Proof.
  intros turn call. split; [|split; [|split]];
    [| | |intros limit run H; by apply accepted_history].
  - intros outcome.
    pose proof (prompt_settles clock cancel outcome text signal w) as H.
    unfold call, exec. destruct outcome; [destruct H as [e0 H]|]; rewrite H; cbn [snd].
    all: split; [apply requested_history | apply requested_trace].
  - intros error.
    destruct (prompt_settles clock cancel (Rejected error) text signal w) as [e0 H].
    exists e0. unfold call, eval. by rewrite H.
  - intros error cancel' outcome' text' signal' w1 w2.
    assert (history w1 = history w ++ [turn]) as Hh.
    { pose proof (prompt_settles clock cancel (Rejected error) text signal w) as [e0 H].
      unfold w1, call, exec. rewrite H. cbn [snd]. apply requested_history. }
    pose proof (prompt_settles clock cancel' outcome' text' signal' w1) as H.
    unfold w2, exec. destruct outcome'; [destruct H as [e0 H]|]; rewrite H; cbn [snd].
    all: destruct (requested_trace clock cancel' text' signal' w1) as [later ->].
    all: exists later; by rewrite Hh, <- app_assoc.
Qed.

(** A request that fails on quota, and the question after it. *)
Lemma prompt_keeps_user_turn_witness :
  let run := plain (Rejected (JS.Error "You exceeded your current quota")) in
  let w1 := exec (useChatbot.sendMessage 10 run "oi") (created ∅) in
  (∃ more, history w1 = OpenAIMessage.make OpenAIRole.user "oi" :: more)
  ∧ payloads (trace (exec (useChatbot.sendMessage 10 (plain (Resolved [stop] Exhausted))
                             "de novo") w1))
    = [[OpenAIMessage.make OpenAIRole.user "oi"];
       [OpenAIMessage.make OpenAIRole.user "oi";
        OpenAIMessage.make OpenAIRole.user "de novo"]].
Proof.
  intros run w1. split; [|reflexivity].
  destruct (prompt_keeps_user_turn counting false "oi" None (created ∅))
    as (_ & _ & _ & H).
  apply (H 10 run). cbn. lia.
Defined.

(** ** Session core: the message limit *)

Lemma over_limit_turned_down limit run text w :
  limit < Z.of_nat (length (messages w)) →
  turned_down (clock run) w (exec (useChatbot.sendMessage limit run text) w)
  ∧ eval (useChatbot.sendMessage limit run text) w = Ok ().
Proof.
  intros H. unfold exec, eval. rewrite sendMessage_over by done.
  unfold turned_down. cbn. rewrite payloads_app, app_nil_r. done.
Qed.

(** C3. [sendMessage] is turned down exactly when there are more prior
    messages than [limit] (strictly more): no request is issued exactly
    then. When it is turned down the transcript gets one more message, the
    notice that the limit is reached, which is written to the store; the
    loading flag, the controller, the aborted signals and the provider's
    history are as before. With limit 2 and 3 prior messages it is turned
    down. *)
Theorem sendMessage_limit (limit : Z) (run : Run) (text : string) (w : App) :
  let w' := exec (useChatbot.sendMessage limit run text) w in
  (limit < Z.of_nat (length (messages w)) ↔ payloads (trace w') = payloads (trace w))
  ∧ (limit < Z.of_nat (length (messages w)) →
     turned_down (clock run) w w'
     ∧ eval (useChatbot.sendMessage limit run text) w = Ok ()
     ∧ Message.content (notice useChatbot.limit_reached (clock run (ticks w)))
       = "Você atingiu o limite de mensagens desta conversa. Limpe o chat para continuar.")
  ∧ (length (messages w) = 3%nat →
     turned_down (clock run) w (exec (useChatbot.sendMessage 2 run text) w)).
Proof.
  intros w'. split; [split|split].
  - intros H. by apply (over_limit_turned_down limit run text w H).
  - intros H. destruct (Z.lt_ge_cases limit (Z.of_nat (length (messages w))))
      as [|Hle]; [done|].
    destruct (accepted_trace limit run text w Hle) as (later & Ht & _).
    unfold w' in H. rewrite Ht in H. apply (f_equal length) in H.
    rewrite payloads_app in H. cbn in H. rewrite length_app in H. cbn in H. lia.
  - intros H. destruct (over_limit_turned_down limit run text w H) as [? ?]. done.
  - intros H. apply over_limit_turned_down. lia.
Qed.

(** Three prior messages, limit 2. *)
Lemma sendMessage_limit_witness :
  let prior := [Message.make Role.user "a" 1 None;
                Message.make Role.assistant "b" 2 None;
                Message.make Role.user "c" 3 None] in
  let run := {| clock := λ _, 4; cancel_while_pending := false;
                request := Resolved [] Exhausted |} in
  let w := with_messages prior (created ∅) in
  turned_down (clock run) w (exec (useChatbot.sendMessage 2 run "d") w)
  ∧ turned_down (clock run) w (exec (useChatbot.sendMessage 2 run "d") w).
Proof.
  intros prior run w. split.
  - apply (sendMessage_limit 2 run "d" w). cbn. lia.
  - apply (sendMessage_limit 2 run "d" w). reflexivity.
Defined.

(** ** Session core: what is requested, and when *)

(** When the request settles with a stream, the placeholder comes next. *)
Lemma after_placeholder run text u events ending w0 :
  request run = Resolved events ending →
  let w2 := streaming (clock run) u
              (requested (clock run) (cancel_while_pending run) text
                 (Some (abortController w0)) w0) in
  let w' := exec (finally
                    (try_catch (useChatbot.attempt run text u)
                       (useChatbot.on_failure (clock run) u))
                    (setLoading false)) w0 in
  (∃ t, trace w' = trace w2 ++ t ∧ payloads t = [])
  ∧ (∃ more, history w' = history w2 ++ more).
Proof.
  intros Hr w2 w'. unfold w', exec.
  assert (∃ k : M unit, grows k
            ∧ finally (try_catch (useChatbot.attempt run text u)
                         (useChatbot.on_failure (clock run) u))
                (setLoading false) w0 = k w2) as (k & Hk & ->); [|apply Hk].
  exists (finally
            (try_catch
               (hasContent ← useChatbot.read_all (clock run)
                                (Some (abortController w0)) events ending "" false;
                if negb hasContent then throw useChatbot.no_answer else ret ())
               (useChatbot.on_failure (clock run) u))
            (setLoading false)).
  split; [grows|]. unfold finally, try_catch.
  by rewrite (attempt_resolved run text u events ending w0 Hr).
Qed.

(** C4, as the code has it. In a [sendMessage] that passes the limit check
    the request is issued while the transcript ends with the user message:
    the effects of the call start with the loading flag, the transcript
    with the user message, and the request. When the request settles with a
    stream the empty placeholder of the reply is appended next, after the
    notice of a press on Cancel if there was one while the request was
    pending, and before anything is read from the stream. *)
Theorem placeholder_follows_request (limit : Z) (run : Run) (text : string) (w : App) :
  Z.of_nat (length (messages w)) ≤ limit →
  let shown := messages w ++ [Message.make Role.user text (clock run (ticks w)) None] in
  let payload := history w ++ [OpenAIMessage.make OpenAIRole.user text] in
  let w' := exec (useChatbot.sendMessage limit run text) w in
  (∃ later, trace w' = trace w ++ SetLoading true :: SetMessages shown
                         :: Request payload (Some (controllers w)) :: later)
  ∧ (∀ events ending, request run = Resolved events ending →
     ∃ now later,
       trace w'
       = trace w ++ SetLoading true :: SetMessages shown
           :: Request payload (Some (controllers w))
           :: (if cancel_while_pending run
               then [SetMessages
                       (shown ++ [Message.make Role.error useChatbot.cancelled
                                    (clock run (S (ticks w))) (Some true)])]
               else [])
           ++ SetMessages (shown ++ [Message.make Role.assistant "" now None])
           :: later).
Proof.
  intros H shown payload w'. split.
  - destruct (accepted_trace limit run text w H) as (later & Ht & _). eauto.
  - intros events ending Hr. unfold w', exec at 1.
    rewrite sendMessage_within by done. fold shown.
    destruct (after_placeholder run text shown events ending
                (started (clock run) text w) Hr) as [(t & Ht & _) _].
    unfold exec in Ht. rewrite Ht. clear Ht.
    rewrite streaming_trace, requested_trace_exact.
    destruct (started_fields (clock run) text w) as (Hm & Ht & Hh & Hc & _ & _ & Hk).
    rewrite Hm, Ht, Hh, Hc, Hk. fold shown payload.
    eexists _, t. rewrite <- !app_assoc. cbn [app]. reflexivity.
Qed.

(** A reply in one fragment. *)
Lemma placeholder_follows_request_witness :
  let run := plain (Resolved [fragment "Olá"; stop] Exhausted) in
  let w' := exec (useChatbot.sendMessage 10 run "oi") (created ∅) in
  ∃ now later,
    trace w'
    = [SetLoading true;
       SetMessages [Message.make Role.user "oi" 0 None];
       Request [OpenAIMessage.make OpenAIRole.user "oi"] (Some 1%nat);
       SetMessages [Message.make Role.user "oi" 0 None;
                    Message.make Role.assistant "" now None]]
      ++ later.
Proof.
  intros run w'.
  destruct (placeholder_follows_request 10 run "oi" (created ∅)) as [_ H].
  - cbn. lia.
  - destruct (H [fragment "Olá"; stop] Exhausted eq_refl) as (now & later & Ht).
    exists now, later. exact Ht.
Defined.

(** C4, as it is stated, fails: while the request is pending the transcript
    holds the user message and no placeholder; the placeholder is set after
    the request. *)
Lemma request_precedes_placeholder :
  let run := plain (Resolved [fragment "Olá"; stop] Exhausted) in
  let w' := exec (useChatbot.sendMessage 10 run "oi") (created ∅) in
  transcript_at_request [] (trace w') = Some [Message.make Role.user "oi" 0 None]
  ∧ trace w'
    = [SetLoading true;
       SetMessages [Message.make Role.user "oi" 0 None];
       Request [OpenAIMessage.make OpenAIRole.user "oi"] (Some 1%nat);
       SetMessages [Message.make Role.user "oi" 0 None;
                    Message.make Role.assistant "" 1 None];
       SaveLater;
       SetMessages [Message.make Role.user "oi" 0 None;
                    Message.make Role.assistant "Olá" 1 None];
       SetLoading false].
Proof. split; reflexivity. Qed.

(** C6, as the code has it. The list passed to the completion call of a
    [sendMessage] is the provider's own history with the new user text at
    its end, whatever the transcript of the session holds; it is the only
    request of the call. *)
Theorem payload_is_provider_history (limit : Z) (run : Run) (text : string) (w : App) :
  Z.of_nat (length (messages w)) ≤ limit →
  let w' := exec (useChatbot.sendMessage limit run text) w in
  payloads (trace w')
  = payloads (trace w) ++ [history w ++ [OpenAIMessage.make OpenAIRole.user text]]
  ∧ ∀ transcript,
      payloads (trace (exec (useChatbot.sendMessage limit run text)
                         (with_messages transcript w)))
      = payloads (trace w')
      ∨ limit < Z.of_nat (length transcript).
Proof.
  intros H w'.
  destruct (accepted_trace limit run text w H) as (later & Ht & Hp).
  assert (payloads (trace w')
          = payloads (trace w) ++ [history w ++ [OpenAIMessage.make OpenAIRole.user text]])
    as Hw'.
  { unfold w'. rewrite Ht, payloads_app. cbn. by rewrite Hp. }
  split; [done|]. intros transcript.
  destruct (Z.lt_ge_cases limit (Z.of_nat (length transcript))) as [|Hle]; [by right|left].
  destruct (accepted_trace limit run text (with_messages transcript w) Hle)
    as (later' & Ht' & Hp').
  rewrite Ht', payloads_app, Hw'. cbn. by rewrite Hp'.
Qed.

(** A session with a rehydrated transcript and an empty provider. *)
Lemma payload_is_provider_history_witness :
  let saved := [Message.make Role.user "oi" 1 None;
                Message.make Role.assistant "Olá!" 2 None] in
  let run := plain (Resolved [fragment "Bem"; stop] Exhausted) in
  payloads (trace (exec (useChatbot.sendMessage 10 run "tudo bem?")
                     (with_messages saved (created ∅))))
  = [[OpenAIMessage.make OpenAIRole.user "tudo bem?"]].
Proof.
  intros saved run.
  apply (payload_is_provider_history 10 run "tudo bem?" (with_messages saved (created ∅))).
  cbn. lia.
Defined.

(** C6, as it is stated, fails: a transcript read back from the store on
    mount is on screen and is not in the payload, which has the new user
    text alone. *)
Lemma payload_misses_rehydrated :
  let saved := [Message.make Role.user "oi" 1 None;
                Message.make Role.assistant "Olá!" 2 None] in
  let store : gmap string string :=
    {[storage.KEY := JSON.stringify (JSON.Arr (Message.encode <$> saved))]} in
  let run := plain (Resolved [fragment "Bem"; stop] Exhausted) in
  let w' :=
    exec (useChatbot.mount ;;
          useChatbot.init counting (useChatbot.Response false "") ;;
          useChatbot.sendMessage 10 run "tudo bem?") (created store) in
  let question := Message.make Role.user "tudo bem?" 0 None in
  transcript_at_request [] (trace w') = Some (saved ++ [question])
  ∧ payloads (trace w') = [[OpenAIMessage.make OpenAIRole.user "tudo bem?"]]
  ∧ sent <$> [OpenAIMessage.make OpenAIRole.user "tudo bem?"]
    ≠ said <$> (saved ++ [question]).
Proof. split; [|split]; [vm_compute; reflexivity..|discriminate]. Qed.

(** ** Completion client: what the stream commits *)

Lemma or_else_empty (text : string) : JS.or_else text "" = text.
Proof. by destruct text. Qed.

Lemma append_empty (text : string) : text +:+ "" = text.
Proof.
  induction text as [|c text IH]; [done|].
  change (String c text +:+ "") with (String c (text +:+ "")). by rewrite IH.
Qed.

Lemma same_client_refl w : same_client w w.
Proof. done. Qed.

Lemma same_client_trans w1 w2 w3 :
  same_client w1 w2 → same_client w2 w3 → same_client w1 w3.
Proof. intros (?&?&?) (?&?&?). repeat split; congruence. Qed.

(** The turn of the provider on a chunk, by cases. *)
Lemma turn_flowing c chunk acc w :
  c ∉ aborted w → stops chunk = false →
  Provider.turn (Some c) chunk acc w
  = (Ok (Provider.Going
           (if JS.truthy (content_of chunk) then Some (content_of chunk) else None)
           (acc +:+ content_of chunk)), w).
Proof.
  intros Hc Hs. unfold Provider.turn, signal_aborted, bind, get, ret. cbv beta iota.
  rewrite bool_decide_eq_false_2 by done. unfold stops in Hs. rewrite Hs.
  unfold content_of. destruct (delta_content chunk) as [text|]; cbn.
  - rewrite or_else_empty. destruct text; cbn; by rewrite ?append_empty.
  - by rewrite append_empty.
Qed.

Lemma turn_stopping c chunk acc w :
  c ∉ aborted w → stops chunk = true →
  Provider.turn (Some c) chunk acc w
  = (Ok (Provider.Closed
           (if JS.truthy (content_of chunk) then Some (content_of chunk) else None)),
     with_history (history w ++ [reply (acc +:+ content_of chunk)]) w).
Proof.
  intros Hc Hs. unfold Provider.turn, signal_aborted, bind, get, ret. cbv beta iota.
  rewrite bool_decide_eq_false_2 by done. unfold stops in Hs. rewrite Hs.
  unfold content_of, Provider.push, modify. destruct (delta_content chunk) as [text|]; cbn.
  - rewrite or_else_empty. destruct text; cbn; by rewrite ?append_empty.
  - by rewrite append_empty.
Qed.

Lemma turn_aborted c chunk acc w :
  c ∈ aborted w →
  Provider.turn (Some c) chunk acc w = (Ok (Provider.Closed None), w).
Proof.
  intros Hc. unfold Provider.turn, signal_aborted, bind, get, ret. cbv beta iota.
  by rewrite bool_decide_eq_true_2.
Qed.

(** What the reader does with a fragment stays on the hook's side. *)
Lemma deliver_run fragment hc w :
  ∃ w', useChatbot.deliver fragment hc w
        = (Ok (hc || match fragment with
                     | Some chunk => JS.truthy (JS.trim chunk)
                     | None => false
                     end), w')
        ∧ same_client w w'.
Proof.
  destruct fragment as [chunk|]; cbn [useChatbot.deliver].
  - unfold useChatbot.on_chunk, bind, get. cbv beta iota.
    assert ((if JS.truthy (JS.trim chunk) then true else hc)
            = hc || JS.truthy (JS.trim chunk)) as ->.
    { destruct hc, (JS.truthy (JS.trim chunk)); done. }
    destruct (useChatbot.extend_last chunk (messages w)); cbn; eexists; done.
  - exists w. by rewrite orb_false_r.
Qed.

Lemma abort_client clock w :
  let w' := exec (useChatbot.abortChatMessage clock) w in
  history w' = history w
  ∧ aborted w' = {[abortController w]} ∪ aborted w.
Proof. done. Qed.

(** Through flowing events the provider gathers the text and commits nothing. *)
Lemma read_quiet clock c pre rest ending acc hc w :
  quiet pre = true → c ∉ aborted w →
  ∃ hc' w',
    useChatbot.read_all clock (Some c) (pre ++ rest) ending acc hc w
    = useChatbot.read_all clock (Some c) rest ending (gathered acc pre) hc' w'
    ∧ same_client w w'.
Proof.
  revert acc hc w. induction pre as [|[chunk|] pre IH]; intros acc hc w Hq Hc.
  - exists hc, w. done.
  - cbn in Hq. apply andb_true_iff in Hq as [Hs Hq]. apply negb_true_iff in Hs.
    cbn [app useChatbot.read_all gathered]. unfold bind at 1.
    rewrite turn_flowing by done. unfold bind at 1.
    destruct (deliver_run
                (if JS.truthy (content_of chunk) then Some (content_of chunk) else None)
                hc w) as (w1 & -> & Hw1).
    destruct (IH (acc +:+ content_of chunk)
                (hc || match (if JS.truthy (content_of chunk)
                              then Some (content_of chunk) else None) with
                       | Some chunk0 => JS.truthy (JS.trim chunk0)
                       | None => false
                       end) w1 Hq) as (hc' & w' & -> & Hw').
    { destruct Hw1 as (_ & -> & _). done. }
    exists hc', w'. eauto using same_client_trans.
  - done.
Qed.

(** Once the signal is aborted the provider commits nothing on a chunk or
    on a failure of the source; a source that just runs out still commits
    what was gathered. *)
Lemma read_aborted clock c events ending acc hc w :
  c ∈ aborted w →
  history (exec (useChatbot.read_all clock (Some c) events ending acc hc) w)
  = history w
    ++ (if negb (has_chunk events)
           && bool_decide (ending = Exhausted) && JS.truthy acc
        then [reply acc] else []).
Proof.
  revert w. induction events as [|[chunk|] events IH]; intros w Hc.
  - cbn [useChatbot.read_all has_chunk existsb negb andb].
    unfold exec, bind, Provider.finish. destruct ending as [|e].
    + rewrite bool_decide_eq_true_2 by done. destruct (JS.truthy acc); cbn; [done|].
      by rewrite app_nil_r.
    + rewrite bool_decide_eq_false_2 by done. unfold signal_aborted, bind, get, ret.
      cbv beta iota.
      rewrite bool_decide_eq_true_2 by done. cbn. by rewrite app_nil_r.
  - cbn [useChatbot.read_all has_chunk existsb negb andb orb].
    unfold exec, bind. rewrite turn_aborted by done. cbn. by rewrite app_nil_r.
  - cbn [useChatbot.read_all has_chunk existsb orb].
    unfold exec, bind. rewrite abort_run. cbv beta iota.
    fold (exec (useChatbot.read_all clock (Some c) events ending acc hc)
            (exec (useChatbot.abortChatMessage clock) w)).
    rewrite IH; [done|].
    destruct (abort_client clock w) as [_ ->]. set_solver.
Qed.

Lemma gathered_app acc events events' :
  gathered acc (events ++ events') = gathered (gathered acc events) events'.
Proof.
  revert acc. induction events as [|[chunk|] events IH]; intros acc; cbn; by rewrite ?IH.
Qed.




(** ** Session core: a reply with no content *)

Lemma messages_setLoading b w : messages (exec (setLoading b) w) = messages w.
Proof. reflexivity. Qed.

Lemma setLoading_run b w : setLoading b w = (Ok (), exec (setLoading b) w).
Proof. reflexivity. Qed.

Lemma no_answer_unclassified :
  useChatbot.is_abort useChatbot.no_answer = false
  ∧ getErrorMessage useChatbot.no_answer = "Nenhuma resposta foi gerada pelo modelo".
Proof. split; reflexivity. Qed.

Lemma on_failure_run clock u err w :
  let w' := exec (useChatbot.on_failure clock u err) w in
  useChatbot.on_failure clock u err w = (Ok (), w')
  ∧ messages w'
    = useChatbot.drop_blank_reply (messages w)
      ++ (if useChatbot.is_abort err then [] else [notice err (clock (ticks w))])
  ∧ loading w' = loading w
  ∧ history w' = history w
  ∧ crashed w' = crashed w.
Proof.
  unfold exec, useChatbot.on_failure. destruct (useChatbot.is_abort err); cbn.
  - by rewrite app_nil_r.
  - done.
Qed.

(** A turn always returns, and what it enqueues is the text of the chunk. *)
Lemma turn_total signal chunk acc w :
  ∃ t w', Provider.turn signal chunk acc w = (Ok t, w')
          ∧ messages w' = messages w ∧ ticks w' = ticks w ∧ crashed w' = crashed w
          ∧ (fragment_of t = None
             ∨ fragment_of t = Some (content_of chunk)
               ∧ JS.truthy (content_of chunk) = true).
Proof.
  unfold Provider.turn, signal_aborted, bind, get, ret. cbv beta iota.
  destruct (match signal with Some c => bool_decide (c ∈ aborted w) | None => false end);
    [eexists _, _; split; [done|]; cbn; auto|].
  unfold content_of.
  destruct (bool_decide (finish_reason chunk = Some "stop")),
    (delta_content chunk) as [[|a text]|]; cbn; eexists _, _; (split; [done|]); cbn;
    repeat split; first [by left | by right].
Qed.

(** White space never sets the flag: a stream of blank chunks is read to
    its end with the flag down, unless the source fails. *)
Lemma read_blank clock signal events ending acc w :
  blank_only events = true →
  (∃ w', useChatbot.read_all clock signal events ending acc false w = (Ok false, w'))
  ∨ (∃ e w', ending = Broken e
             ∧ useChatbot.read_all clock signal events ending acc false w = (Throw e, w')).
Proof.
  revert acc w. induction events as [|[chunk|] events IH]; intros acc w Hb.
  - cbn [useChatbot.read_all]. unfold bind, Provider.finish.
    destruct ending as [|e].
    + destruct (JS.truthy acc); cbn; eauto.
    + unfold signal_aborted, bind, get, ret. cbv beta iota.
      destruct (match signal with Some c => bool_decide (c ∈ aborted w) | None => false end);
        cbn; eauto.
  - cbn in Hb. apply andb_true_iff in Hb as [Hc Hb]. apply negb_true_iff in Hc.
    destruct (turn_total signal chunk acc w) as (t & w1 & Ht & _ & _ & _ & Hf).
    assert (∃ w2, useChatbot.deliver (fragment_of t) false w1 = (Ok false, w2))
      as [w2 Hd].
    { destruct (deliver_run (fragment_of t) false w1) as (w2 & -> & _).
      exists w2. by destruct Hf as [-> | [-> _]]; cbn; rewrite ?Hc. }
    destruct t as [fragment acc'|fragment]; cbn [fragment_of] in Hd.
    + assert (useChatbot.read_all clock signal (Delta chunk :: events) ending acc false w
              = useChatbot.read_all clock signal events ending acc' false w2) as ->.
      { cbn [useChatbot.read_all]. unfold bind at 1. rewrite Ht.
        unfold bind at 1. by rewrite Hd. }
      by apply IH.
    + left. exists w2. cbn [useChatbot.read_all]. unfold bind at 1. by rewrite Ht.
  - cbn in Hb.
    assert (useChatbot.read_all clock signal (UserAbort :: events) ending acc false w
            = useChatbot.read_all clock signal events ending acc false
                (exec (useChatbot.abortChatMessage clock) w)) as ->.
    { cbn [useChatbot.read_all]. unfold bind at 1. by rewrite abort_run. }
    by apply IH.
Qed.

(** An accepted [sendMessage] whose stream is read to its end with the
    flag down ends in the failure branch with the error of no answer. *)
Lemma sendMessage_no_content limit run text w events ending w3 :
  Z.of_nat (length (messages w)) ≤ limit →
  request run = Resolved events ending →
  let u := messages w ++ [Message.make Role.user text (clock run (ticks w)) None] in
  useChatbot.read_all (clock run) (Some (controllers w)) events ending "" false
    (streaming (clock run) u
       (requested (clock run) (cancel_while_pending run) text (Some (controllers w))
          (started (clock run) text w)))
  = (Ok false, w3) →
  useChatbot.sendMessage limit run text w
  = (Ok (), exec (setLoading false)
              (exec (useChatbot.on_failure (clock run) u useChatbot.no_answer) w3)).
Proof.
  intros H Hr u Hread. rewrite sendMessage_within by done. fold u.
  unfold finally, try_catch.
  rewrite (attempt_resolved run text u events ending _ Hr).
  destruct (started_fields (clock run) text w) as (_ & _ & _ & -> & _).
  unfold bind at 1. rewrite Hread. cbn [negb]. unfold throw.
  destruct (on_failure_run (clock run) u useChatbot.no_answer w3) as [-> _].
  reflexivity.
Qed.

(** C10. White space counts as no content, at both places. The flag of the
    reading loop goes up on a chunk only if the chunk does not trim to
    nothing; so a [sendMessage] whose stream delivers blank fragments only
    and runs out ends with the notice that no answer was generated, and not
    loading. And in the failure branches, a last message of the assistant
    whose content trims to nothing is removed, white space and all, before
    the notice, if any, is appended. *)
Theorem whitespace_is_no_content :
  (∀ chunk hasContent w,
     eval (useChatbot.on_chunk chunk hasContent) w
     = Ok (hasContent || JS.truthy (JS.trim chunk)))
  ∧ (∀ limit run text w events,
       Z.of_nat (length (messages w)) ≤ limit →
       request run = Resolved events Exhausted →
       blank_only events = true →
       let w' := exec (useChatbot.sendMessage limit run text) w in
       loading w' = false
       ∧ ∃ now, last (messages w')
                = Some (Message.make Role.error
                          "Nenhuma resposta foi gerada pelo modelo" now (Some true)))
  ∧ (∀ clock updatedMessages err w prev m,
       messages w = prev ++ [m] →
       Message.role m = Role.assistant →
       JS.trim (Message.content m) = "" →
       messages (exec (useChatbot.on_failure clock updatedMessages err) w)
       = prev ++ (if useChatbot.is_abort err then [] else [notice err (clock (ticks w))])).
Proof.
  split; [|split].
  - intros chunk hc w. unfold eval.
    destruct (deliver_run (Some chunk) hc w) as (w' & H & _).
    cbn [useChatbot.deliver] in H. by rewrite H.
  - intros limit run text w events H Hr Hb w'.
    destruct (read_blank (clock run) (Some (controllers w)) events Exhausted ""
                (streaming (clock run)
                   (messages w ++ [Message.make Role.user text (clock run (ticks w)) None])
                   (requested (clock run) (cancel_while_pending run) text
                      (Some (controllers w)) (started (clock run) text w))) Hb)
      as [[w3 Hread] | (e & w3 & He & _)]; [|done].
    assert (w' = exec (setLoading false)
                   (exec (useChatbot.on_failure (clock run)
                            (messages w
                             ++ [Message.make Role.user text (clock run (ticks w)) None])
                            useChatbot.no_answer) w3)) as ->.
    { unfold w', exec at 1.
      by rewrite (sendMessage_no_content limit run text w events Exhausted w3 H Hr Hread). }
    split; [done|].
    rewrite messages_setLoading.
    destruct (on_failure_run (clock run)
                (messages w ++ [Message.make Role.user text (clock run (ticks w)) None])
                useChatbot.no_answer w3) as (_ & -> & _).
    destruct no_answer_unclassified as [-> Hm].
    eexists. rewrite last_snoc. unfold notice. by rewrite Hm.
  - intros clock u err w prev m Hw Hrole Htrim.
    destruct (on_failure_run clock u err w) as (_ & -> & _).
    f_equal. unfold useChatbot.drop_blank_reply.
    rewrite Hw, last_snoc, Hrole, Htrim, removelast_last. done.
Qed.

(** Blank fragments and no press on Cancel: the reply that gathered them
    is dropped, and the notice stands alone after the user message. *)
Lemma whitespace_is_no_content_witness :
  let run := plain (Resolved [fragment " "; fragment "  "] Exhausted) in
  let w' := exec (useChatbot.sendMessage 10 run "oi") (created ∅) in
  let question := Message.make Role.user "oi" 0 None in
  (loading w' = false
   ∧ ∃ now, last (messages w')
            = Some (Message.make Role.error
                      "Nenhuma resposta foi gerada pelo modelo" now (Some true)))
  ∧ messages (exec (useChatbot.on_failure counting [question] useChatbot.no_answer)
                (with_messages [question; Message.make Role.assistant "   " 1 None]
                   (created ∅)))
    = [question; notice useChatbot.no_answer 0]
  ∧ messages w' = [question; notice useChatbot.no_answer 2].
Proof.
  intros run w' question.
  destruct whitespace_is_no_content as (_ & H2 & H3). split; [|split].
  - apply (H2 10 run "oi" (created ∅) [fragment " "; fragment "  "]).
    + cbn. lia.
    + reflexivity.
    + reflexivity.
  - apply (H3 counting [question] useChatbot.no_answer
             (with_messages [question; Message.make Role.assistant "   " 1 None]
                (created ∅))
             [question] (Message.make Role.assistant "   " 1 None)); reflexivity.
  - reflexivity.
Defined.

Lemma trim_empty : JS.trim "" = "".
Proof. reflexivity. Qed.

(** A stream with no text and no press on Cancel leaves the transcript and
    the clock alone. *)
Lemma read_silent clock signal events acc hc w :
  silent events = true →
  ∃ w', useChatbot.read_all clock signal events Exhausted acc hc w = (Ok hc, w')
        ∧ messages w' = messages w ∧ ticks w' = ticks w.
Proof.
  revert acc w. induction events as [|[chunk|] events IH]; intros acc w Hs.
  - cbn [useChatbot.read_all]. unfold bind, Provider.finish.
    destruct (JS.truthy acc); cbn; eauto.
  - cbn in Hs. apply andb_true_iff in Hs as [Hc Hs]. apply negb_true_iff in Hc.
    destruct (turn_total signal chunk acc w) as (t & w1 & Ht & Hm & Hk & _ & Hf).
    assert (fragment_of t = None) as Hn.
    { destruct Hf as [|[_ Hf]]; [done|congruence]. }
    cbn [useChatbot.read_all]. unfold bind at 1. rewrite Ht.
    destruct t as [fragment acc'|fragment]; cbn [fragment_of] in Hn; subst fragment.
    + unfold bind at 1. cbn [useChatbot.deliver]. unfold ret at 1.
      destruct (IH acc' w1 Hs) as (w' & -> & Hm' & Hk').
      exists w'. repeat split; congruence.
    + cbn [useChatbot.deliver]. exists w1. done.
  - done.
Qed.

(** Without a press on Cancel the stream with no text ends as the
    specification says: the placeholder goes, one notice comes. *)
Lemma empty_completion_without_cancel limit run text w events :
  Z.of_nat (length (messages w)) ≤ limit →
  cancel_while_pending run = false →
  request run = Resolved events Exhausted →
  silent events = true →
  let w' := exec (useChatbot.sendMessage limit run text) w in
  messages w'
  = messages w ++ [Message.make Role.user text (clock run (ticks w)) None;
                   notice useChatbot.no_answer (clock run (S (S (ticks w))))]
  ∧ loading w' = false
  ∧ eval (useChatbot.sendMessage limit run text) w = Ok ().
Proof.
  intros H Hc Hr Hs w'.
  set (u := messages w ++ [Message.make Role.user text (clock run (ticks w)) None]).
  set (w2 := streaming (clock run) u
               (requested (clock run) (cancel_while_pending run) text
                  (Some (controllers w)) (started (clock run) text w))).
  destruct (read_silent (clock run) (Some (controllers w)) events "" false w2 Hs)
    as (w3 & Hread & Hm & Hk).
  pose proof (sendMessage_no_content limit run text w events Exhausted w3 H Hr Hread)
    as Hsend.
  assert (w' = exec (setLoading false)
                 (exec (useChatbot.on_failure (clock run) u useChatbot.no_answer) w3))
    as ->.
  { unfold w', exec at 1. by rewrite Hsend. }
  unfold eval. rewrite Hsend. split; [|done].
  rewrite messages_setLoading.
  destruct (on_failure_run (clock run) u useChatbot.no_answer w3) as (_ & -> & _).
  destruct no_answer_unclassified as [-> _].
  rewrite Hm, Hk. unfold w2. rewrite Hc. cbn.
  unfold useChatbot.drop_blank_reply. rewrite last_snoc.
  cbn [Message.role Message.content]. rewrite trim_empty.
  rewrite bool_decide_eq_true_2 by done. cbn [JS.truthy negb andb].
  rewrite removelast_last. unfold u. by rewrite <- app_assoc.
Qed.

(** ** Session core: cancellation *)

Lemma aborted_error_classified :
  useChatbot.is_abort (JS.Error "Request aborted by user") = true.
Proof. reflexivity. Qed.

(** A request that is rejected after a press on Cancel is thrown on as an
    abort. *)
Lemma prompt_cancelled clock e text w :
  Provider.prompt (useChatbot.pending clock true) (Rejected e) text
    (Some (abortController w)) w
  = (Throw (JS.Error "Request aborted by user"),
     requested clock true text (Some (abortController w)) w).
Proof.
  unfold Provider.prompt, try_catch, requested, exec, useChatbot.pending.
  unfold bind, Provider.push, get, emit, modify, throw, ret.
  rewrite !abort_run. cbv beta iota.
  unfold Provider.on_error, signal_aborted, bind, get, ret. cbv beta iota.
  rewrite bool_decide_eq_true_2; [done|].
  apply elem_of_union. left. by apply elem_of_singleton.
Qed.

(** The path that does report a cancellation once: a press on Cancel while
    the request is pending, and the request rejected. The transcript gets
    the user message and the notice of [abortChatMessage], and nothing from
    the failure branch. *)
Lemma cancel_while_pending_reported_once limit run text w e :
  Z.of_nat (length (messages w)) ≤ limit →
  cancel_while_pending run = true →
  request run = Rejected e →
  let w' := exec (useChatbot.sendMessage limit run text) w in
  messages w'
  = messages w ++ [Message.make Role.user text (clock run (ticks w)) None;
                   Message.make Role.error useChatbot.cancelled
                     (clock run (S (ticks w))) (Some true)]
  ∧ loading w' = false.
Proof.
  intros H Hc Hr w'.
  set (u := messages w ++ [Message.make Role.user text (clock run (ticks w)) None]).
  set (w1 := requested (clock run) true text
               (Some (abortController (started (clock run) text w)))
               (started (clock run) text w)).
  assert (w' = exec (setLoading false)
                 (exec (useChatbot.on_failure (clock run) u
                          (JS.Error "Request aborted by user")) w1)) as ->.
  { unfold w', exec at 1. rewrite sendMessage_within by done. fold u.
    unfold finally, try_catch, useChatbot.attempt, bind at 1, get. cbv beta iota.
    unfold bind at 1. rewrite Hc, Hr, prompt_cancelled. fold w1.
    destruct (on_failure_run (clock run) u (JS.Error "Request aborted by user") w1)
      as (-> & _).
    by rewrite setLoading_run. }
  split; [|done].
  rewrite messages_setLoading.
  destruct (on_failure_run (clock run) u (JS.Error "Request aborted by user") w1)
    as (_ & -> & _).
  rewrite aborted_error_classified, app_nil_r. unfold w1. cbn.
  unfold useChatbot.drop_blank_reply. rewrite last_snoc. cbn.
  unfold u. by rewrite <- app_assoc.
Qed.

(** C1 fails on the code. The user presses Cancel after the request has
    settled and before the first chunk; then the source runs out or fails,
    or a chunk arrives. In each case the provider closes the stream without
    an error, the reading loop ends with no content, and the failure branch
    of [sendMessage] adds the notice that no answer was generated after the
    notice of [abortChatMessage]: two error messages for the turn, and the
    empty placeholder stays. *)
Theorem cancel_before_content_reported_twice (limit : Z) (run : Run) (text : string)
    (w : App) (later : list Event) (ending : Ending) :
  Z.of_nat (length (messages w)) ≤ limit →
  cancel_while_pending run = false →
  request run = Resolved (UserAbort :: later) ending →
  head later ≠ Some UserAbort →
  let w' := exec (useChatbot.sendMessage limit run text) w in
  let n := ticks w in
  messages w'
  = messages w
    ++ [Message.make Role.user text (clock run n) None;
        Message.make Role.assistant "" (clock run (S n)) None;
        Message.make Role.error useChatbot.cancelled (clock run (S (S n))) (Some true);
        Message.make Role.error "Nenhuma resposta foi gerada pelo modelo"
          (clock run (S (S (S n)))) (Some true)]
  ∧ length (filter (λ m, Message.role m = Role.error) (messages w'))
    = (length (filter (λ m, Message.role m = Role.error) (messages w)) + 2)%nat
  ∧ loading w' = false.
Proof.
  intros H Hc Hr Hl w' n.
  set (u := messages w ++ [Message.make Role.user text (clock run (ticks w)) None]).
  set (w2 := streaming (clock run) u
               (requested (clock run) (cancel_while_pending run) text
                  (Some (controllers w)) (started (clock run) text w))).
  set (w3 := exec (useChatbot.abortChatMessage (clock run)) w2).
  assert (controllers w ∈ aborted w3) as Ha.
  { unfold w3, w2. rewrite Hc. cbn.
    apply elem_of_union. left. by apply elem_of_singleton. }
  assert (useChatbot.read_all (clock run) (Some (controllers w))
            (UserAbort :: later) ending "" false w2 = (Ok false, w3))
    as Hread.
  { cbn [useChatbot.read_all]. unfold bind at 1. rewrite abort_run. cbv beta iota.
    fold w3. destruct later as [|[chunk|] later]; [| |done].
    - cbn [useChatbot.read_all]. unfold bind, Provider.finish.
      destruct ending as [|e]; [done|].
      unfold signal_aborted, bind, get, ret. cbv beta iota.
      by rewrite bool_decide_eq_true_2.
    - cbn [useChatbot.read_all]. unfold bind at 1. by rewrite turn_aborted. }
  pose proof (sendMessage_no_content limit run text w _ ending w3 H Hr Hread) as Hsend.
  assert (w' = exec (setLoading false)
                 (exec (useChatbot.on_failure (clock run) u useChatbot.no_answer) w3))
    as ->.
  { unfold w', exec at 1. by rewrite Hsend. }
  rewrite messages_setLoading.
  destruct (on_failure_run (clock run) u useChatbot.no_answer w3) as (_ & -> & _).
  destruct no_answer_unclassified as [-> Hm]. unfold notice. rewrite Hm.
  assert (useChatbot.drop_blank_reply (messages w3) = messages w3) as ->.
  { unfold w3, w2. rewrite Hc. cbn.
    unfold useChatbot.drop_blank_reply. by rewrite last_snoc. }
  assert (messages w3
          = messages w
            ++ [Message.make Role.user text (clock run n) None;
                Message.make Role.assistant "" (clock run (S n)) None;
                Message.make Role.error useChatbot.cancelled (clock run (S (S n)))
                  (Some true)]
          ∧ ticks w3 = S (S (S n))) as [-> ->].
  { unfold w3, w2. rewrite Hc. cbn. unfold u, n. by rewrite <- !app_assoc. }
  rewrite <- app_assoc. cbn [app]. split; [done|]. split; [|done].
  rewrite filter_app, length_app. f_equal.
Qed.

(** The first question of a session, cancelled before the first chunk;
    then the source runs out, or a chunk arrives. *)
Lemma cancel_before_content_reported_twice_witness :
  let twice := [Message.make Role.user "oi" 0 None;
                Message.make Role.assistant "" 1 None;
                Message.make Role.error useChatbot.cancelled 2 (Some true);
                Message.make Role.error "Nenhuma resposta foi gerada pelo modelo" 3
                  (Some true)] in
  messages (exec (useChatbot.sendMessage 10 (plain (Resolved [UserAbort] Exhausted)) "oi")
              (created ∅)) = twice
  ∧ messages (exec (useChatbot.sendMessage 10
                      (plain (Resolved [UserAbort; fragment "Olá"; stop] Exhausted)) "oi")
                (created ∅)) = twice.
Proof.
  intros twice. split.
  - apply (cancel_before_content_reported_twice 10
             (plain (Resolved [UserAbort] Exhausted)) "oi" (created ∅) [] Exhausted).
    + cbn. lia.
    + reflexivity.
    + reflexivity.
    + discriminate.
  - apply (cancel_before_content_reported_twice 10
             (plain (Resolved [UserAbort; fragment "Olá"; stop] Exhausted)) "oi"
             (created ∅) [fragment "Olá"; stop] Exhausted).
    + cbn. lia.
    + reflexivity.
    + reflexivity.
    + discriminate.
Defined.

(** C5 fails on the code, by the same defect. The user presses Cancel
    before the first chunk and the source then runs out: the stream
    completes with no fragment, the failure is the error of no answer, which
    is not classified as an abort, and still the empty placeholder stays in
    the transcript, since the last message is by then the notice of
    [abortChatMessage]. *)
Theorem cancel_before_content_keeps_placeholder :
  let run := plain (Resolved [UserAbort] Exhausted) in
  let w' := exec (useChatbot.sendMessage 10 run "oi") (created ∅) in
  useChatbot.is_abort useChatbot.no_answer = false
  ∧ messages w'
    = [Message.make Role.user "oi" 0 None;
       Message.make Role.assistant "" 1 None;
       Message.make Role.error useChatbot.cancelled 2 (Some true);
       Message.make Role.error "Nenhuma resposta foi gerada pelo modelo" 3 (Some true)]
  ∧ Message.make Role.assistant "" 1 None ∈ messages w'
  ∧ loading w' = false.
Proof.
  intros run w'.
  assert (messages w'
          = [Message.make Role.user "oi" 0 None;
             Message.make Role.assistant "" 1 None;
             Message.make Role.error useChatbot.cancelled 2 (Some true);
             Message.make Role.error "Nenhuma resposta foi gerada pelo modelo" 3
               (Some true)]) as Hm by reflexivity.
  split; [reflexivity|]. split; [exact Hm|]. split; [|reflexivity].
  rewrite Hm. apply list_elem_of_In. simpl. tauto.
Qed.

(** ** The reading loop never finds the transcript empty *)

Lemma extend_last_defined chunk prev :
  prev ≠ [] → ∃ updated, useChatbot.extend_last chunk prev = Some updated ∧ updated ≠ [].
Proof.
  intros Hne. unfold useChatbot.extend_last.
  destruct (last prev) as [m|] eqn:Hl.
  - destruct (bool_decide (Message.role m = Role.assistant)); eexists; split; try done.
    by destruct (removelast prev).
  - by apply last_None in Hl.
Qed.

Lemma deliver_steady fragment hc w :
  messages w ≠ [] → crashed w = false →
  let w' := exec (useChatbot.deliver fragment hc) w in
  messages w' ≠ [] ∧ crashed w' = false.
Proof.
  intros Hne Hc. destruct fragment as [chunk|]; [|done].
  unfold exec. cbn [useChatbot.deliver]. unfold useChatbot.on_chunk, bind, get.
  cbv beta iota.
  destruct (extend_last_defined chunk (messages w) Hne) as (updated & -> & Hu). done.
Qed.

Lemma read_all_steady clock signal events ending acc hc w :
  messages w ≠ [] → crashed w = false →
  let w' := exec (useChatbot.read_all clock signal events ending acc hc) w in
  messages w' ≠ [] ∧ crashed w' = false.
Proof.
  revert acc hc w. induction events as [|[chunk|] events IH]; intros acc hc w Hne Hc w'.
  - unfold w', exec. cbn [useChatbot.read_all]. unfold bind, Provider.finish.
    destruct ending as [|e].
    + by destruct (JS.truthy acc).
    + unfold signal_aborted, bind, get, ret. cbv beta iota.
      by destruct (match signal with Some c => bool_decide (c ∈ aborted w) | None => false end).
  - destruct (turn_total signal chunk acc w) as (t & w1 & Ht & Hm & _ & Hk & _).
    rewrite <- Hm in Hne. rewrite <- Hk in Hc.
    destruct t as [fragment acc'|fragment].
    + pose proof (deliver_steady fragment hc w1 Hne Hc) as [Hne' Hc'].
      destruct (deliver_run fragment hc w1) as (w2 & Hd & _).
      unfold exec in Hne', Hc'. rewrite Hd in Hne', Hc'. cbn [snd] in Hne', Hc'.
      assert (w' = exec (useChatbot.read_all clock signal events ending acc'
                           (hc || match fragment with
                                  | Some chunk0 => JS.truthy (JS.trim chunk0)
                                  | None => false
                                  end)) w2) as ->.
      { unfold w', exec. cbn [useChatbot.read_all]. unfold bind at 1. rewrite Ht.
        unfold bind at 1. by rewrite Hd. }
      by apply IH.
    + assert (w' = exec (useChatbot.deliver fragment hc) w1) as ->.
      { unfold w', exec. cbn [useChatbot.read_all]. unfold bind at 1. by rewrite Ht. }
      by apply deliver_steady.
  - assert (w' = exec (useChatbot.read_all clock signal events ending acc hc)
                   (exec (useChatbot.abortChatMessage clock) w)) as ->.
    { unfold w', exec at 1. cbn [useChatbot.read_all]. unfold bind at 1.
      by rewrite abort_run. }
    apply IH; [|done]. cbn. by destruct (messages w).
Qed.

Lemma settle_steady clock u (body : M unit) w0 :
  crashed (exec body w0) = false →
  crashed (exec (finally (try_catch body (useChatbot.on_failure clock u))
                   (setLoading false)) w0) = false.
Proof.
  unfold exec, finally, try_catch. destruct (body w0) as [[[]|e] w3]; cbn [snd]; intros H.
  - by rewrite setLoading_run.
  - destruct (on_failure_run clock u e w3) as (-> & _ & _ & _ & Hk).
    rewrite setLoading_run. cbn [snd]. by rewrite <- H, <- Hk.
Qed.

(** No [sendMessage] ever makes the updater of the reading loop throw. *)
Lemma sendMessage_never_crashes limit run text w :
  crashed w = false → crashed (exec (useChatbot.sendMessage limit run text) w) = false.
Proof.
  intros Hc. destruct (Z.lt_ge_cases limit (Z.of_nat (length (messages w)))) as [Hlt|Hle].
  - unfold exec. by rewrite sendMessage_over.
  - unfold exec at 1. rewrite sendMessage_within by done.
    set (u := messages w ++ [Message.make Role.user text (clock run (ticks w)) None]).
    set (w0 := started (clock run) text w).
    apply (settle_steady (clock run) u). unfold exec.
    destruct (request run) as [e|events ending] eqn:Hr.
    + destruct (attempt_rejected run text u e w0 Hr) as [e' ->].
      cbn [snd]. by destruct (cancel_while_pending run).
    + rewrite (attempt_resolved run text u events ending w0 Hr).
      set (w2 := streaming _ _ _).
      assert (messages w2 ≠ [] ∧ crashed w2 = false) as [Hne2 Hc2].
      { unfold w2, u. destruct (cancel_while_pending run); cbn; split; try done.
        all: by destruct (messages w). }
      pose proof (read_all_steady (clock run) (Some (abortController w0)) events ending
                    "" false w2 Hne2 Hc2) as [_ Hc3].
      unfold exec in Hc3. unfold bind.
      destruct (useChatbot.read_all (clock run) (Some (abortController w0)) events ending
                  "" false w2) as [[[]|e] w3]; done.
Qed.
